(** * ioniq_exporter: the poll-resolve-publish loop of [main.go]

    A shallow embedding of [main.go] (package [main]) and the properties of
    its vehicle resolver [ensureVehicleEx], of the status switch and of the
    polling goroutine.

    Conventions of the embedding:
    - Go [string] is [string] (a byte sequence); Go [int], [int64] and
      [time.Duration] are [Z] with the 64-bit wrap-around written out where
      the code multiplies; Go [float64] is the primitive binary64 [float].
    - A Go function returning [(x, error)] whose value is only used when the
      error is nil returns [result]: [Ok x] for a nil error and [Err e]
      otherwise.  The extraction callback of [ensureVehicleEx] is not of that
      kind ([vin, _ := extract(v)] keeps the string whatever the error): it
      returns the pair of the string and the error, [None] for nil.
    - The goroutine's effects (calls to the Bluelink client, [Gauge.Set],
      [log.Print], [time.Sleep]) are recorded as a trace of events next to the
      state of the five gauges; the answers of the remote side in one
      iteration are an explicit environment. *)

From Stdlib Require Import ZArith Bool List Lia.
From Stdlib Require Import Ascii String.
From Stdlib Require Import PrimFloat FloatOps SpecFloat.
Import ListNotations.

Set Implicit Arguments.
Open Scope string_scope.
Open Scope Z_scope.

(** ** Strings: [strings.ToUpper] *)

(** [strings.ToUpper] belongs to Go's standard library.  The resolver only
    relies on it mapping the empty string, and nothing else, to the empty
    string; it is taken as an interface with that law. *)
Class CaseFolding : Type := {
  ToUpper : string -> string;
  ToUpper_empty : ToUpper "" = "";
  ToUpper_nonempty : forall s, s <> "" -> ToUpper s <> ""
}.

(** The ASCII path of [strings.ToUpper]: bytes ['a'..'z'] lose
    ['a' - 'A']; every other byte below 0x80 is kept. *)
Definition upperByte (c : ascii) : ascii :=
  let n := N_of_ascii c in
  if ((97 <=? n) && (n <=? 122))%N then ascii_of_N (n - 32) else c.

Fixpoint ToUpperASCII (s : string) : string :=
  match s with
  | EmptyString => EmptyString
  | String c rest => String (upperByte c) (ToUpperASCII rest)
  end.

(** [strings.Join(ids, sep)], as [fmt]'s [%v] prints a slice of strings. *)
Fixpoint joinWith (sep : string) (l : list string) : string :=
  match l with
  | [] => ""
  | [x] => x
  | x :: rest => x ++ sep ++ joinWith sep rest
  end.

(** ** Errors and results *)

(** The [error] values of the program: those handed back by a collaborator
    (the Bluelink client, or an extraction callback) and the two that
    [ensureVehicleEx] builds with [fmt.Errorf]. *)
Inductive error : Type :=
| ErrRemote (msg : string)
| ErrCannotGetVehicles (cause : error)    (* "cannot get vehicles: %w" *)
| ErrCannotFindVehicle (got : list string). (* "cannot find vehicle, got: %v" *)

(** [err.Error()] *)
Fixpoint Error (e : error) : string :=
  match e with
  | ErrRemote msg => msg
  | ErrCannotGetVehicles cause => "cannot get vehicles: " ++ Error cause
  | ErrCannotFindVehicle got =>
      "cannot find vehicle, got: [" ++ joinWith " " got ++ "]"
  end.

Inductive result (A : Type) : Type :=
| Ok (a : A)
| Err (e : error).
Arguments Ok {A} a.
Arguments Err {A} e.

(** ** The resolver: [ensureVehicleEx] *)

(** [lo.Map(collection, iteratee)]: the iteratee sees each item and its
    index. *)
Fixpoint lo_Map_from {A B : Type} (i : nat) (f : A -> nat -> B) (l : list A)
  : list B :=
  match l with
  | [] => []
  | x :: rest => f x i :: lo_Map_from (S i) f rest
  end.

Definition lo_Map {A B : Type} (l : list A) (f : A -> nat -> B) : list B :=
  lo_Map_from 0 f l.

Section Resolver.
Context `{CaseFolding}.
Context {T : Type}.

(** The [for _, vehicle := range vehicles] loop of the branch with a VIN;
    [vin] is already upper case.  [None]: the loop ran to its end without
    returning. *)
Fixpoint scanVehicles (vin : string) (extract : T -> string * option error)
         (vehicles : list T) : option (result T) :=
  match vehicles with
  | [] => None
  | vehicle :: rest =>
      match extract vehicle with
      | (_, Some err) => Some (Err err)
      | (vv, None) =>
          if (ToUpper vv =? vin)%string then Some (Ok vehicle)
          else scanVehicles vin extract rest
      end
  end.

(** The identifiers listed by the final [fmt.Errorf]:
    [vin, _ := extract(v); return vin]. *)
Definition gotIdentifiers (extract : T -> string * option error)
           (vehicles : list T) : list string :=
  lo_Map vehicles (fun v _ =>
    match extract v with
    | (vin, _) => vin
    end).

Definition ensureVehicleEx (vin : string) (list : result (list T))
           (extract : T -> string * option error) : result T :=
  match list with
  | Err err => Err (ErrCannotGetVehicles err)
  | Ok vehicles =>
      let cannotFind :=
        Err (ErrCannotFindVehicle (gotIdentifiers extract vehicles)) in
      let vin := ToUpper vin in
      if negb (vin =? "")%string then
        (* vin defined *)
        match scanVehicles vin extract vehicles with
        | Some returned => returned
        | None => cannotFind
        end
      else
        match vehicles with
        | [vehicle] => Ok vehicle     (* len(vehicles) == 1: vehicles[0] *)
        | _ => cannotFind
        end
  end.
End Resolver.

(** [bluelink.Vehicle], with the fields the exporter can tell vehicles apart
    by. *)
Record Vehicle : Type := mkVehicle {
  VIN : string;
  VehicleName : string;
  VehicleID : string
}.

(** The extraction callback [main] passes:
    [func(v bluelink.Vehicle) (string, error) { return v.VIN, nil }]. *)
Definition extractVIN (v : Vehicle) : string * option error := (VIN v, None).

(** ** Command line: the flags of [main] *)

Record Flags : Type := mkFlags {
  listenAddr : string;   (* -web.listen-address *)
  username : string;     (* -username *)
  token : string;        (* -token *)
  vin : string;          (* -vin *)
  pollInterval : Z;      (* -poll-interval, a Go int *)
  showVersion : bool     (* -version *)
}.

(** The default each [flag.String], [flag.Int] and [flag.Bool] call of [main]
    declares. *)
Definition flagDefaults : Flags := {|
  listenAddr := ":9333";
  username := "user@example.com";
  token := "secret1234";
  vin := "TM...";
  pollInterval := 60;
  showVersion := false
|}.

(** One flag given on the command line. *)
Inductive flagArg : Type :=
| ArgListenAddress (s : string)
| ArgUsername (s : string)
| ArgToken (s : string)
| ArgVin (s : string)
| ArgPollInterval (n : Z)
| ArgVersion (b : bool).

Definition flagSet (f : Flags) (a : flagArg) : Flags :=
  match a with
  | ArgListenAddress s =>
      mkFlags s (username f) (token f) (vin f) (pollInterval f) (showVersion f)
  | ArgUsername s =>
      mkFlags (listenAddr f) s (token f) (vin f) (pollInterval f) (showVersion f)
  | ArgToken s =>
      mkFlags (listenAddr f) (username f) s (vin f) (pollInterval f) (showVersion f)
  | ArgVin s =>
      mkFlags (listenAddr f) (username f) (token f) s (pollInterval f) (showVersion f)
  | ArgPollInterval n =>
      mkFlags (listenAddr f) (username f) (token f) (vin f) n (showVersion f)
  | ArgVersion b =>
      mkFlags (listenAddr f) (username f) (token f) (vin f) (pollInterval f) b
  end.

(** [flag.Parse()]: every flag keeps its default unless the command line
    sets it; a flag given twice keeps the last value. *)
Definition flag_Parse (args : list flagArg) : Flags :=
  fold_left flagSet args flagDefaults.

(** ** Numbers and time *)

(** Conversion [float64(n)] of an [int64]: rounding to nearest, ties to
    even. *)
Definition float64_of_int64 (n : Z) : float :=
  SF2Prim (binary_normalize prec emax n 0 false).

(** Two's complement wrap-around of [int64] arithmetic. *)
Definition wrap64 (z : Z) : Z := (z + 2 ^ 63) mod 2 ^ 64 - 2 ^ 63.

(** [time.Second], a [time.Duration] in nanoseconds. *)
Definition Second : Z := 1000000000.

(** The argument of every [time.Sleep]: the poll interval converted to a
    [time.Duration] and multiplied by [time.Second]. *)
Definition pollDuration (flags : Flags) : Z :=
  wrap64 (pollInterval flags * Second).

(** [time.Time]: an instant, as seconds since the Unix epoch and the
    nanoseconds within that second. *)
Record Time : Type := mkTime {
  Unix : Z;          (* t.Unix() *)
  Nanosecond : Z     (* t.Nanosecond() *)
}.

(** ** The gauges and the effects of the goroutine *)

Inductive gauge : Type :=
| evRange | evSoc | evStatus | evFinishTime | evOdometer.

(** The registered gauges; [None] is a gauge no [Set] has reached yet. *)
Record Sink : Type := mkSink {
  ev_range : option float;
  ev_soc : option float;
  ev_status : option float;
  ev_finish_time : option float;
  ev_odometer : option float
}.

Definition emptySink : Sink := mkSink None None None None None.

Definition gaugeValue (g : gauge) (s : Sink) : option float :=
  match g with
  | evRange => ev_range s
  | evSoc => ev_soc s
  | evStatus => ev_status s
  | evFinishTime => ev_finish_time s
  | evOdometer => ev_odometer s
  end.

Definition gaugeStore (g : gauge) (x : float) (s : Sink) : Sink :=
  match g with
  | evRange =>
      mkSink (Some x) (ev_soc s) (ev_status s) (ev_finish_time s) (ev_odometer s)
  | evSoc =>
      mkSink (ev_range s) (Some x) (ev_status s) (ev_finish_time s) (ev_odometer s)
  | evStatus =>
      mkSink (ev_range s) (ev_soc s) (Some x) (ev_finish_time s) (ev_odometer s)
  | evFinishTime =>
      mkSink (ev_range s) (ev_soc s) (ev_status s) (Some x) (ev_odometer s)
  | evOdometer =>
      mkSink (ev_range s) (ev_soc s) (ev_status s) (ev_finish_time s) (Some x)
  end.

Inductive event : Type :=
| CallNewIdentity                              (* bluelink.NewIdentity *)
| CallLogin (user tok lang brand : string)     (* identity.Login *)
| CallNewAPI                                   (* bluelink.NewAPI *)
| CallVehicles                                 (* api.Vehicles, by list() *)
| CallNewProvider (vehicle : Vehicle)          (* bluelink.NewProvider *)
| CallFetch (g : gauge)       (* provider.Range, Soc, Status, FinishTime, Odometer *)
| GaugeSet (g : gauge) (x : float)             (* Gauge.Set *)
| LogPrint (msg : string)                      (* log.Print, log.Println *)
| Printf (msg : string)                        (* fmt.Printf *)
| Sleep (d : Z).                               (* time.Sleep *)

(** What the remote side answers during one iteration of the loop. *)
Record Remote : Type := mkRemote {
  Login : option error;
  Vehicles : result (list Vehicle);
  Range : Vehicle -> result Z;
  Soc : Vehicle -> result float;
  Status : Vehicle -> result string;    (* statusString.String() *)
  FinishTime : Vehicle -> result Time;
  Odometer : Vehicle -> result float
}.

(** A computation either goes on with a value or leaves the process
    ([os.Exit]). *)
Inductive outcome (A : Type) : Type :=
| Done (a : A)
| Exit (code : Z).
Arguments Done {A} a.
Arguments Exit {A} code.

Record run (A : Type) : Type := mkRun {
  events : list event;   (* in the order they happen *)
  gauges : Sink;
  ending : outcome A
}.

Definition M (A : Type) : Type := Sink -> run A.

Definition ret {A : Type} (a : A) : M A :=
  fun s => mkRun [] s (Done a).

Definition bind {A B : Type} (m : M A) (k : A -> M B) : M B :=
  fun s =>
    let r := m s in
    match ending r with
    | Done a =>
        let r' := k a (gauges r) in
        mkRun (events r ++ events r')%list (gauges r') (ending r')
    | Exit code => mkRun (events r) (gauges r) (Exit code)
    end.

Notation "x <- c1 ;; c2" := (bind c1 (fun x => c2))
  (at level 61, c1 at next level, right associativity).
Notation "c1 ;; c2" := (bind c1 (fun _ => c2))
  (at level 61, right associativity).

(** A call to a collaborator that answers [answer]. *)
Definition call {A : Type} (e : event) (answer : A) : M A :=
  fun s => mkRun [e] s (Done answer).

Definition gauge_Set (g : gauge) (x : float) : M unit :=
  fun s => mkRun [GaugeSet g x] (gaugeStore g x s) (Done tt).

Definition log_Print (msg : string) : M unit := call (LogPrint msg) tt.
Definition log_Println (msg : string) : M unit := call (LogPrint msg) tt.
Definition fmt_Printf (msg : string) : M unit := call (Printf msg) tt.
Definition time_Sleep (d : Z) : M unit := call (Sleep d) tt.
Definition os_Exit {A : Type} (code : Z) : M A :=
  fun s => mkRun [] s (Exit code).

(** [log.Fatal]: the line is logged, then [os.Exit(1)]. *)
Definition log_Fatal {A : Type} (msg : string) : M A :=
  log_Print msg ;; os_Exit 1.

(** [http.ListenAndServe] runs beside the goroutine.  It serves for ever, or
    it returns its error when the goroutine has produced [after] events. *)
Inductive Serve : Type :=
| ServesForever
| ServeFails (after : nat) (err : error).

(** The gauges once the [Gauge.Set] calls among [done] have happened. *)
Definition gaugesAfter (done : list event) (s : Sink) : Sink :=
  fold_left (fun s e =>
               match e with
               | GaugeSet g x => gaugeStore g x s
               | _ => s
               end) done s.

(** ** The polling goroutine *)

(** [provider.Range()] and [evRange.Set(float64(rangeKm))] *)
Definition pollRange (remote : Remote) (vehicle : Vehicle) : M unit :=
  fetched <- call (CallFetch evRange) (Range remote vehicle) ;;
  match fetched with
  | Err err => log_Print ("Range Error: " ++ Error err)
  | Ok rangeKm => gauge_Set evRange (float64_of_int64 rangeKm)
  end.

(** [provider.Soc()] and [evSoc.Set(soc)] *)
Definition pollSoc (remote : Remote) (vehicle : Vehicle) : M unit :=
  fetched <- call (CallFetch evSoc) (Soc remote vehicle) ;;
  match fetched with
  | Err err => log_Print ("SoC error: " ++ Error err)
  | Ok soc => gauge_Set evSoc soc
  end.

(** The [switch statusString.String()] of [main]. *)
Definition switchStatus (statusString : string) : M unit :=
  if (statusString =? "")%string then gauge_Set evStatus 0%float
  else if (statusString =? "A")%string then gauge_Set evStatus 1%float
  else if (statusString =? "B")%string then gauge_Set evStatus 2%float
  else if (statusString =? "C")%string then gauge_Set evStatus 3%float
  else if (statusString =? "D")%string then gauge_Set evStatus 4%float
  else if (statusString =? "E")%string then gauge_Set evStatus 5%float
  else if (statusString =? "F")%string then gauge_Set evStatus 6%float
  else log_Print ("Unknown status: " ++ statusString).

(** [provider.Status()] and the switch on its code *)
Definition pollStatus (remote : Remote) (vehicle : Vehicle) : M unit :=
  fetched <- call (CallFetch evStatus) (Status remote vehicle) ;;
  match fetched with
  | Err err => log_Print ("Status error: " ++ Error err)
  | Ok statusString => switchStatus statusString
  end.

(** [provider.FinishTime()] and
    [evFinishTime.Set(float64(finishTime.Unix()))] *)
Definition pollFinishTime (remote : Remote) (vehicle : Vehicle) : M unit :=
  fetched <- call (CallFetch evFinishTime) (FinishTime remote vehicle) ;;
  match fetched with
  | Err err => log_Print ("Finish time error: " ++ Error err)
  | Ok finishTime => gauge_Set evFinishTime (float64_of_int64 (Unix finishTime))
  end.

(** [provider.Odometer()] and [evOdometer.Set(odometer)] *)
Definition pollOdometer (remote : Remote) (vehicle : Vehicle) : M unit :=
  fetched <- call (CallFetch evOdometer) (Odometer remote vehicle) ;;
  match fetched with
  | Err err => log_Print ("Odometer error: " ++ Error err)
  | Ok odometer => gauge_Set evOdometer odometer
  end.

Section Goroutine.
Context `{CaseFolding}.

(** One iteration of the [for] loop of the goroutine; each [continue] of
    the source ends the iteration. *)
Definition pollOnce (flags : Flags) (remote : Remote) : M unit :=
  call CallNewIdentity tt ;;
  failed <- call (CallLogin (username flags) (token flags) "en" "hyundai")
                 (Login remote) ;;
  match failed with
  | Some err =>
      log_Println (Error err) ;;
      time_Sleep (pollDuration flags)
  | None =>
      call CallNewAPI tt ;;
      found <- (vehicles <- call CallVehicles (Vehicles remote) ;;
                ret (ensureVehicleEx (vin flags) vehicles extractVIN)) ;;
      match found with
      | Err err =>
          log_Println (Error err) ;;
          time_Sleep (pollDuration flags)
      | Ok vehicle =>
          call (CallNewProvider vehicle) tt ;;
          pollRange remote vehicle ;;
          pollSoc remote vehicle ;;
          pollStatus remote vehicle ;;
          pollFinishTime remote vehicle ;;
          pollOdometer remote vehicle ;;
          time_Sleep (pollDuration flags)
      end
  end.

(** The [for] loop never ends by itself; its runs are taken over every
    finite sequence of iterations, one [Remote] per iteration. *)
Fixpoint pollLoop (flags : Flags) (remotes : list Remote) : M unit :=
  match remotes with
  | [] => ret tt
  | remote :: later => pollOnce flags remote ;; pollLoop flags later
  end.

(** [main]: the flags are parsed; [-version] prints
    [promVersion.Print("ioniq_exporter")] (here [buildInfo]) and leaves
    with [os.Exit(0)].  Otherwise the gauges are created, the goroutine is
    started and [http.ListenAndServe] serves the gauges, which the handler
    only reads; when it returns, [log.Fatal] logs its error and the process
    leaves with code 1, wherever the goroutine is by then. *)
Definition main (buildInfo : string) (args : list flagArg) (listen : Serve)
           (remotes : list Remote) : run unit :=
  let flags := flag_Parse args in
  if showVersion flags then
    (fmt_Printf (buildInfo ++ String (ascii_of_nat 10) "") ;; os_Exit 0)
      emptySink
  else
    let polling := pollLoop flags remotes emptySink in
    match listen with
    | ServesForever => polling
    | ServeFails after err =>
        let done := firstn after (events polling) in
        let fatal := log_Fatal (Error err) (gaugesAfter done emptySink) in
        mkRun (done ++ events fatal)%list (gauges fatal) (ending fatal)
    end.
End Goroutine.

(** ** Vocabulary of the statements *)

(** The first entity of [vehicles], in list order, whose identifier equals
    the filter once both are case-normalized. *)
Definition FirstMatch `{CaseFolding} {T : Type} (ident : T -> string)
           (filter : string) (vehicles : list T) (v : T) : Prop :=
  exists before after,
    vehicles = (before ++ v :: after)%list /\
    ToUpper (ident v) = ToUpper filter /\
    forall u, In u before -> ToUpper (ident u) <> ToUpper filter.

(** No entity of [vehicles] has an identifier matching the filter. *)
Definition NoMatch `{CaseFolding} {T : Type} (ident : T -> string)
           (filter : string) (vehicles : list T) : Prop :=
  forall u, In u vehicles -> ToUpper (ident u) <> ToUpper filter.

(** An entity the scan passes over: its identifier is extracted and differs
    from the upper-case filter [u]. *)
Definition passedOver `{CaseFolding} {T : Type}
           (extract : T -> string * option error) (u : string) (w : T)
  : Prop :=
  exists s, extract w = (s, None) /\ ToUpper s <> u.

(** The identifier an entity contributes to the diagnostic list: the string
    its extraction handed back, whatever the error next to it. *)
Definition listedAs {T : Type} (extract : T -> string * option error) (w : T)
  : string :=
  fst (extract w).

(** The failure kinds the specification names for the resolver. *)
Inductive ResolutionFailure : Type := NotFound | Ambiguous.

(** The vehicles of the specification's scenarios. *)
Definition abc123 : Vehicle := mkVehicle "ABC123" "first" "1".
Definition xyz789 : Vehicle := mkVehicle "XYZ789" "second" "2".
Definition xyz789' : Vehicle := mkVehicle "xyz789" "third" "3".

(** A vehicle the remote side lists without a VIN, and an extraction
    callback that refuses such a vehicle. *)
Definition unnamed : Vehicle := mkVehicle "" "fourth" "4".

Definition extractChecked (v : Vehicle) : string * option error :=
  if (VIN v =? "")%string then ("", Some (ErrRemote "vehicle without VIN"))
  else (VIN v, None).

(** An extraction callback that reports the vehicle named [second] as sold,
    handing back its VIN next to the error. *)
Definition extractUnsold (v : Vehicle) : string * option error :=
  if (VehicleName v =? "second")%string
  then (VIN v, Some (ErrRemote "vehicle sold"))
  else (VIN v, None).

(** The table of the state mapper as the specification words it: the empty
    code is 0 and the codes A to F are 1 to 6. *)
Definition statusTable : list (string * float) :=
  [("", 0%float); ("A", 1%float); ("B", 2%float); ("C", 3%float);
   ("D", 4%float); ("E", 5%float); ("F", 6%float)].

Fixpoint lookupStatus (table : list (string * float)) (code : string)
  : option float :=
  match table with
  | [] => None
  | (known, number) :: rest =>
      if (code =? known)%string then Some number else lookupStatus rest code
  end.

Definition statusNumber (code : string) : option float :=
  lookupStatus statusTable code.

(** The five gauges in the order the goroutine polls them. *)
Definition allGauges : list gauge :=
  [evRange; evSoc; evStatus; evFinishTime; evOdometer].

(** The part of an iteration that serves gauge [g]. *)
Definition pollGauge (remote : Remote) (vehicle : Vehicle) (g : gauge)
  : M unit :=
  match g with
  | evRange => pollRange remote vehicle
  | evSoc => pollSoc remote vehicle
  | evStatus => pollStatus remote vehicle
  | evFinishTime => pollFinishTime remote vehicle
  | evOdometer => pollOdometer remote vehicle
  end.

(** The fetch for gauge [g] fails. *)
Definition fetchFails (remote : Remote) (vehicle : Vehicle) (g : gauge)
  : Prop :=
  match g with
  | evRange => exists e, Range remote vehicle = Err e
  | evSoc => exists e, Soc remote vehicle = Err e
  | evStatus => exists e, Status remote vehicle = Err e
  | evFinishTime => exists e, FinishTime remote vehicle = Err e
  | evOdometer => exists e, Odometer remote vehicle = Err e
  end.

(** The fresh reading of gauge [g]: the number its fetch yields for
    publication.  There is none when the fetch fails, nor when the status
    fetch answers a code outside the table. *)
Definition fresh (remote : Remote) (vehicle : Vehicle) (g : gauge)
  : option float :=
  match g with
  | evRange =>
      match Range remote vehicle with
      | Ok rangeKm => Some (float64_of_int64 rangeKm)
      | Err _ => None
      end
  | evSoc =>
      match Soc remote vehicle with Ok soc => Some soc | Err _ => None end
  | evStatus =>
      match Status remote vehicle with
      | Ok code => statusNumber code
      | Err _ => None
      end
  | evFinishTime =>
      match FinishTime remote vehicle with
      | Ok finishTime => Some (float64_of_int64 (Unix finishTime))
      | Err _ => None
      end
  | evOdometer =>
      match Odometer remote vehicle with
      | Ok odometer => Some odometer
      | Err _ => None
      end
  end.

(** The gauges after the fetch for [g]: a fresh reading is stored in the
    gauge's own slot. *)
Definition storeFresh (remote : Remote) (vehicle : Vehicle) (s : Sink)
           (g : gauge) : Sink :=
  match fresh remote vehicle g with
  | Some x => gaugeStore g x s
  | None => s
  end.

(** The gauges after all five fetches. *)
Definition polled (remote : Remote) (vehicle : Vehicle) (s : Sink) : Sink :=
  fold_left (storeFresh remote vehicle) allGauges s.

(** The events that open an iteration reaching the provider. *)
Definition sessionOpened (flags : Flags) (vehicle : Vehicle) : list event :=
  [CallNewIdentity; CallLogin (username flags) (token flags) "en" "hyundai";
   CallNewAPI; CallVehicles; CallNewProvider vehicle].

(** The fresh reading of gauge [g] in an iteration: there is none when the
    iteration stops at the login or at the resolution. *)
Definition freshIn `{CaseFolding} (flags : Flags) (remote : Remote)
           (g : gauge) : option float :=
  match Login remote with
  | Some _ => None
  | None =>
      match ensureVehicleEx (vin flags) (Vehicles remote) extractVIN with
      | Err _ => None
      | Ok vehicle => fresh remote vehicle g
      end
  end.

(** The status fetch answers a code outside the table. *)
Definition unknownStatus (remote : Remote) (vehicle : Vehicle) : Prop :=
  exists code,
    Status remote vehicle = Ok code /\ ~ In code (map fst statusTable).

(** A remote side on which every call succeeds, and variations of it. *)
Definition remoteHealthy : Remote := {|
  Login := None;
  Vehicles := Ok [abc123; xyz789];
  Range := fun _ => Ok 320;
  Soc := fun _ => Ok 80%float;
  Status := fun _ => Ok "C";
  FinishTime := fun _ => Ok (mkTime 1700000000 500000000);
  Odometer := fun _ => Ok 12345.5%float
|}.

Definition withStatus (code : string) (remote : Remote) : Remote :=
  mkRemote (Login remote) (Vehicles remote) (Range remote) (Soc remote)
           (fun _ => Ok code) (FinishTime remote) (Odometer remote).

Definition withoutRange (remote : Remote) : Remote :=
  mkRemote (Login remote) (Vehicles remote)
           (fun _ => Err (ErrRemote "range unavailable")) (Soc remote)
           (Status remote) (FinishTime remote) (Odometer remote).

Definition withoutLogin (remote : Remote) : Remote :=
  mkRemote (Some (ErrRemote "login failed")) (Vehicles remote) (Range remote)
           (Soc remote) (Status remote) (FinishTime remote) (Odometer remote).

Definition withoutVehicles (remote : Remote) : Remote :=
  mkRemote (Login remote) (Err (ErrRemote "list failed")) (Range remote)
           (Soc remote) (Status remote) (FinishTime remote) (Odometer remote).

(** Flags of a run that tracks the vehicle [XYZ789]. *)
Definition flagsXYZ : Flags :=
  flag_Parse [ArgUsername "driver@example.com"; ArgToken "refresh";
              ArgVin "xyz789"].

(** The [Gauge.Set] a fresh reading causes. *)
Definition setOf (remote : Remote) (vehicle : Vehicle) (g : gauge)
  : list event :=
  match fresh remote vehicle g with
  | Some x => [GaugeSet g x]
  | None => []
  end.

(** The calls that build the session and resolve the vehicle. *)
Definition isSessionCall (e : event) : bool :=
  match e with
  | CallNewIdentity | CallLogin _ _ _ _ | CallNewAPI | CallVehicles => true
  | _ => false
  end.

(** The session calls one iteration makes: a new identity and a login, and
    after a successful login a new API handle and the vehicle list. *)
Definition sessionCalls (flags : Flags) (remote : Remote) : list event :=
  [CallNewIdentity; CallLogin (username flags) (token flags) "en" "hyundai"] ++
  match Login remote with
  | Some _ => []
  | None => [CallNewAPI; CallVehicles]
  end.

(** The error of the fetch for gauge [g], when it fails. *)
Definition fetchError (remote : Remote) (vehicle : Vehicle) (g : gauge)
  : option error :=
  match g with
  | evRange =>
      match Range remote vehicle with Err e => Some e | Ok _ => None end
  | evSoc =>
      match Soc remote vehicle with Err e => Some e | Ok _ => None end
  | evStatus =>
      match Status remote vehicle with Err e => Some e | Ok _ => None end
  | evFinishTime =>
      match FinishTime remote vehicle with Err e => Some e | Ok _ => None end
  | evOdometer =>
      match Odometer remote vehicle with Err e => Some e | Ok _ => None end
  end.

(** The text [log.Print] puts before the error of a failed fetch. *)
Definition fetchLabel (g : gauge) : string :=
  match g with
  | evRange => "Range Error: "
  | evSoc => "SoC error: "
  | evStatus => "Status error: "
  | evFinishTime => "Finish time error: "
  | evOdometer => "Odometer error: "
  end.

(** The line logged for gauge [g] when nothing is published for it: the
    labelled error of the failed fetch, or the unknown status code. *)
Definition logLine (remote : Remote) (vehicle : Vehicle) (g : gauge)
  : string :=
  match fetchError remote vehicle g with
  | Some e => fetchLabel g ++ Error e
  | None =>
      match Status remote vehicle with
      | Ok code => "Unknown status: " ++ code
      | Err _ => ""
      end
  end.

(** The two events the goroutine produces for gauge [g]: the fetch, then
    the [Gauge.Set] of the fresh reading or else the log line. *)
Definition fetchStep (remote : Remote) (vehicle : Vehicle) (g : gauge)
  : list event :=
  [CallFetch g;
   match fresh remote vehicle g with
   | Some x => GaugeSet g x
   | None => LogPrint (logLine remote vehicle g)
   end].

(** The status gauge is unset or holds a number of the table. *)
Definition statusInTable (s : Sink) : Prop :=
  match ev_status s with
  | Some x => In x (map snd statusTable)
  | None => True
  end.

Definition isPrintf (e : event) : bool :=
  match e with Printf _ => true | _ => false end.

Definition isSleep (e : event) : bool :=
  match e with Sleep _ => true | _ => false end.

Definition isFetch (e : event) : bool :=
  match e with CallFetch _ => true | _ => false end.

Definition isGaugeSet (e : event) : bool :=
  match e with GaugeSet _ _ => true | _ => false end.

(** * Properties *)

(** ** Case folding on ASCII *)

Lemma ToUpperASCII_nonempty : forall s, s <> "" -> ToUpperASCII s <> "".
Proof.
  intros [|c rest] Hs; [now elim Hs | simpl; discriminate].
Qed.

(** [strings.ToUpper] on strings of bytes below 0x80. *)
#[export] Instance asciiFolding : CaseFolding := {|
  ToUpper := ToUpperASCII;
  ToUpper_empty := eq_refl;
  ToUpper_nonempty := ToUpperASCII_nonempty
|}.

(** ** The resolver *)

Lemma lo_Map_from_map {A B : Type} (g : A -> B) (l : list A) :
  forall i, lo_Map_from i (fun x _ => g x) l = map g l.
Proof.
  induction l as [|x rest IH]; intros i; simpl; [reflexivity|].
  now rewrite IH.
Qed.

Section ResolverFacts.
Context `{CaseFolding}.
Context {T : Type}.
Variable extract : T -> string * option error.

Lemma scanVehicles_None (u : string) (l : list T) :
  scanVehicles u extract l = None <->
  forall w, In w l -> passedOver extract u w.
Proof.
  induction l as [|x rest IH]; simpl.
  - split; [intros _ w [] | reflexivity].
  - destruct (extract x) as [s [e|]] eqn:Ex.
    + split; [discriminate|].
      intros Hall. destruct (Hall x (or_introl eq_refl)) as (s' & Hs' & _).
      rewrite Ex in Hs'. discriminate.
    + destruct (ToUpper s =? u)%string eqn:Es.
      * split; [discriminate|].
        intros Hall. destruct (Hall x (or_introl eq_refl)) as (s' & Hs' & Hne).
        rewrite Ex in Hs'. injection Hs' as <-.
        apply String.eqb_eq in Es. contradiction.
      * rewrite IH. apply String.eqb_neq in Es. split.
        -- intros Hall w [<-|Hin]; [now exists s | now apply Hall].
        -- intros Hall w Hin. apply Hall. now right.
Qed.

Lemma scanVehicles_Ok (u : string) (l : list T) (v : T) :
  scanVehicles u extract l = Some (Ok v) <->
  exists before after s,
    l = (before ++ v :: after)%list /\ extract v = (s, None) /\
    ToUpper s = u /\
    forall w, In w before -> passedOver extract u w.
Proof.
  induction l as [|x rest IH]; simpl.
  - split; [discriminate|].
    intros (before & after & s & Hl & _). now destruct before.
  - destruct (extract x) as [s [e|]] eqn:Ex.
    + split.
      * discriminate.
      * intros (before & after & s' & Hl & Hv & Hu & Hpre).
        destruct before as [|b before]; simpl in Hl.
        -- injection Hl as -> _. rewrite Ex in Hv. discriminate.
        -- injection Hl as <- _.
           destruct (Hpre x (or_introl eq_refl)) as (s2 & Hs2 & _).
           rewrite Ex in Hs2. discriminate.
    + destruct (ToUpper s =? u)%string eqn:Es.
      * apply String.eqb_eq in Es. split.
        -- intros [= <-]. exists [], rest, s. repeat split; trivial.
           intros w [].
        -- intros (before & after & s' & Hl & Hv & Hu & Hpre).
           destruct before as [|b before]; simpl in Hl.
           ++ now injection Hl as -> _.
           ++ injection Hl as <- _.
              destruct (Hpre x (or_introl eq_refl)) as (s2 & Hs2 & Hne).
              rewrite Ex in Hs2. injection Hs2 as <-. contradiction.
      * apply String.eqb_neq in Es. rewrite IH. split.
        -- intros (before & after & s' & -> & Hv & Hu & Hpre).
           exists (x :: before), after, s'. repeat split; trivial.
           intros w [<-|Hin]; [now exists s | now apply Hpre].
        -- intros (before & after & s' & Hl & Hv & Hu & Hpre).
           destruct before as [|b before]; simpl in Hl.
           ++ injection Hl as -> _. rewrite Ex in Hv. injection Hv as <-.
              contradiction.
           ++ injection Hl as <- ->. exists before, after, s'.
              repeat split; trivial. intros w Hin. apply Hpre. now right.
Qed.

Lemma scanVehicles_Err (u : string) (l : list T) (e : error) :
  scanVehicles u extract l = Some (Err e) <->
  exists before w after,
    l = (before ++ w :: after)%list /\ snd (extract w) = Some e /\
    forall w', In w' before -> passedOver extract u w'.
Proof.
  induction l as [|x rest IH]; simpl.
  - split; [discriminate|].
    intros (before & w & after & Hl & _). now destruct before.
  - destruct (extract x) as [s [e'|]] eqn:Ex.
    + split.
      * intros [= <-]. exists [], x, rest. repeat split; trivial.
        -- now rewrite Ex.
        -- intros w' [].
      * intros (before & w & after & Hl & Hw & Hpre).
        destruct before as [|b before]; simpl in Hl.
        -- injection Hl as -> _. rewrite Ex in Hw. simpl in Hw.
           now injection Hw as ->.
        -- injection Hl as <- _.
           destruct (Hpre x (or_introl eq_refl)) as (s2 & Hs2 & _).
           rewrite Ex in Hs2. discriminate.
    + destruct (ToUpper s =? u)%string eqn:Es.
      * apply String.eqb_eq in Es. split; [discriminate|].
        intros (before & w & after & Hl & Hw & Hpre).
        destruct before as [|b before]; simpl in Hl.
        -- injection Hl as -> _. rewrite Ex in Hw. discriminate.
        -- injection Hl as <- _.
           destruct (Hpre x (or_introl eq_refl)) as (s2 & Hs2 & Hne).
           rewrite Ex in Hs2. injection Hs2 as <-. contradiction.
      * apply String.eqb_neq in Es. rewrite IH. split.
        -- intros (before & w & after & -> & Hw & Hpre).
           exists (x :: before), w, after. repeat split; trivial.
           intros w' [<-|Hin]; [now exists s | now apply Hpre].
        -- intros (before & w & after & Hl & Hw & Hpre).
           destruct before as [|b before]; simpl in Hl.
           ++ injection Hl as -> _. rewrite Ex in Hw. discriminate.
           ++ injection Hl as <- ->. exists before, w, after.
              repeat split; trivial. intros w' Hin. apply Hpre. now right.
Qed.

(** The filter is empty exactly when its upper case is. *)
Lemma ToUpper_eqb_empty (filter : string) :
  (ToUpper filter =? "")%string = true <-> filter = "".
Proof.
  rewrite String.eqb_eq. split.
  - intros Hu. destruct (string_dec filter "") as [|Hne]; trivial.
    now apply ToUpper_nonempty in Hne.
  - intros ->. apply ToUpper_empty.
Qed.

Lemma ensureVehicleEx_filter (filter : string) (vehicles : list T) :
  filter <> "" ->
  ensureVehicleEx filter (Ok vehicles) extract =
  match scanVehicles (ToUpper filter) extract vehicles with
  | Some returned => returned
  | None => Err (ErrCannotFindVehicle (gotIdentifiers extract vehicles))
  end.
Proof.
  intros Hne. unfold ensureVehicleEx.
  destruct (ToUpper filter =? "")%string eqn:E; [|reflexivity].
  now apply ToUpper_eqb_empty in E.
Qed.

Lemma ensureVehicleEx_no_filter (vehicles : list T) :
  ensureVehicleEx "" (Ok vehicles) extract =
  match vehicles with
  | [vehicle] => Ok vehicle
  | _ => Err (ErrCannotFindVehicle (gotIdentifiers extract vehicles))
  end.
Proof.
  unfold ensureVehicleEx. now rewrite ToUpper_empty.
Qed.

(** The diagnostic lists, in list order, the string each extraction handed
    back. *)
Lemma gotIdentifiers_listedAs (vehicles : list T) :
  gotIdentifiers extract vehicles = map (listedAs extract) vehicles.
Proof.
  unfold gotIdentifiers, lo_Map.
  rewrite <- (lo_Map_from_map (listedAs extract) vehicles 0).
  generalize 0%nat. induction vehicles as [|x rest IH]; intros i; simpl.
  - reflexivity.
  - rewrite IH. unfold listedAs. now destruct (extract x).
Qed.

(** Where every entity has an identifier, the diagnostic lists all of
    them, in list order. *)
Lemma gotIdentifiers_all (ident : T -> string) (vehicles : list T) :
  (forall v, In v vehicles -> extract v = (ident v, None)) ->
  gotIdentifiers extract vehicles = map ident vehicles.
Proof.
  intros Hid. rewrite gotIdentifiers_listedAs. apply map_ext_in.
  intros v Hv. unfold listedAs. now rewrite (Hid v Hv).
Qed.
End ResolverFacts.

Lemma returned_Ok {T : Type} (scanned : option (result T)) (e : error) (v : T) :
  match scanned with Some returned => returned | None => Err e end = Ok v <->
  scanned = Some (Ok v).
Proof.
  destruct scanned as [[a|e']|]; split; intros E; try discriminate.
  - now rewrite E.
  - now injection E as ->.
Qed.

Lemma passedOver_ident `{CaseFolding} {T : Type} (extract : T -> string * option error)
      (ident : T -> string) (u : string) (w : T) :
  extract w = (ident w, None) ->
  passedOver extract u w <-> ToUpper (ident w) <> u.
Proof.
  intros Hw. unfold passedOver. split.
  - intros (s & Hs & Hne). rewrite Hw in Hs. now injection Hs as <-.
  - intros Hne. now exists (ident w).
Qed.

(** C1: where every listed entity has an identifier, resolution succeeds in
    exactly two cases.  With a non-empty filter it returns the first entity,
    in list order, whose identifier equals the filter after both are put in
    upper case (later entities with the same identifier are never looked
    at); with an empty filter and a list of exactly one entity it returns
    that entity. *)
Theorem ensureVehicleEx_succeeds_iff `{CaseFolding} {T : Type}
        (extract : T -> string * option error) (ident : T -> string)
        (filter : string) (vehicles : list T) (v : T) :
  (forall w, In w vehicles -> extract w = (ident w, None)) ->
  ensureVehicleEx filter (Ok vehicles) extract = Ok v <->
  (filter <> "" /\ FirstMatch ident filter vehicles v) \/
  (filter = "" /\ vehicles = [v]).
Proof.
  intros Hid. destruct (string_dec filter "") as [->|Hne].
  - rewrite ensureVehicleEx_no_filter. split.
    + destruct vehicles as [|a [|b rest]]; try discriminate.
      intros [= ->]. now right.
    + intros [[Hne _]|[_ ->]]; [now elim Hne | reflexivity].
  - rewrite ensureVehicleEx_filter by assumption.
    rewrite returned_Ok, scanVehicles_Ok. split.
    + intros (before & after & s & -> & Hv & Hu & Hpre). left. split; trivial.
      assert (Hs : s = ident v).
      { rewrite Hid in Hv by (apply in_or_app; right; now left).
        now injection Hv. }
      subst s. exists before, after. repeat split; trivial.
      intros u Hin. apply (passedOver_ident extract ident).
      * apply Hid, in_or_app. now left.
      * now apply Hpre.
    + intros [[_ (before & after & -> & Hu & Hpre)]|[Hemp _]];
        [|contradiction].
      exists before, after, (ident v). repeat split; trivial.
      * apply Hid, in_or_app. right. now left.
      * intros w Hin. apply (passedOver_ident extract ident).
        -- apply Hid, in_or_app. now left.
        -- now apply Hpre.
Qed.

Lemma ensureVehicleEx_succeeds_iff_witness :
  (forall w, In w [abc123; xyz789; xyz789'] -> extractVIN w = (VIN w, None)) /\
  (ensureVehicleEx "xyz789" (Ok [abc123; xyz789; xyz789']) extractVIN
   = Ok xyz789 <->
   ("xyz789" <> "" /\
    FirstMatch VIN "xyz789" [abc123; xyz789; xyz789'] xyz789) \/
   ("xyz789" = "" /\ [abc123; xyz789; xyz789'] = [xyz789])).
Proof.
  split.
  - intros w _. reflexivity.
  - apply (ensureVehicleEx_succeeds_iff extractVIN VIN "xyz789"
             [abc123; xyz789; xyz789'] xyz789).
    intros w _. reflexivity.
Defined.

(** The scenarios of the specification, and two entities with the same
    identifier up to case: the first one is returned. *)
Example resolver_scenario_1 :
  ensureVehicleEx "" (Ok [abc123]) extractVIN = Ok abc123.
Proof. reflexivity. Qed.

Example resolver_scenario_2 :
  ensureVehicleEx "xyz789" (Ok [abc123; xyz789]) extractVIN = Ok xyz789.
Proof. reflexivity. Qed.

Example resolver_scenario_3 :
  ensureVehicleEx "" (Ok (@nil Vehicle)) extractVIN
  = Err (ErrCannotFindVehicle []).
Proof. reflexivity. Qed.

Example resolver_first_duplicate :
  ensureVehicleEx "XYZ789" (Ok [abc123; xyz789'; xyz789]) extractVIN
  = Ok xyz789'.
Proof. reflexivity. Qed.

(** C2, as the code has it: where every listed entity has an identifier,
    resolution fails exactly when the filter is non-empty and no identifier
    matches it case-insensitively, or the filter is empty and the list does
    not hold exactly one entity (none and several fail alike).  Both cases
    fail with one and the same error, [cannot find vehicle], which lists the
    identifiers of all entities in list order. *)
Theorem ensureVehicleEx_fails_iff `{CaseFolding} {T : Type}
        (extract : T -> string * option error) (ident : T -> string)
        (filter : string) (vehicles : list T) (e : error) :
  (forall w, In w vehicles -> extract w = (ident w, None)) ->
  ensureVehicleEx filter (Ok vehicles) extract = Err e <->
  ((filter <> "" /\ NoMatch ident filter vehicles) \/
   (filter = "" /\ List.length vehicles <> 1%nat)) /\
  e = ErrCannotFindVehicle (map ident vehicles).
Proof.
  intros Hid. destruct (string_dec filter "") as [->|Hne].
  - rewrite ensureVehicleEx_no_filter, (gotIdentifiers_all extract ident) by assumption.
    destruct vehicles as [|a [|b rest]]; simpl; split.
    + intros [= <-]. split; [right|]; auto.
    + now intros [_ ->].
    + discriminate.
    + intros [[[Hne _]|[_ Hlen]] _]; [now elim Hne | now elim Hlen].
    + intros [= <-]. split; [right|]; auto.
    + now intros [_ ->].
  - rewrite ensureVehicleEx_filter, (gotIdentifiers_all extract ident) by assumption.
    destruct (scanVehicles (ToUpper filter) extract vehicles)
      as [[v|e']|] eqn:Escan.
    + apply scanVehicles_Ok in Escan.
      destruct Escan as (before & after & s & -> & Hv & Hu & _).
      split; [discriminate|]. intros [[[_ Hno]|[Hemp _]] _]; [|contradiction].
      assert (Hin : In v (before ++ v :: after)%list)
        by (apply in_or_app; right; now left).
      rewrite (Hid v Hin) in Hv. injection Hv as <-.
      now elim (Hno v Hin).
    + apply scanVehicles_Err in Escan.
      destruct Escan as (before & w & after & -> & Hw & _).
      rewrite Hid in Hw by (apply in_or_app; right; now left). discriminate.
    + rewrite scanVehicles_None in Escan. split.
      * intros [= <-]. split; trivial. left. split; trivial.
        intros u Hin. apply (passedOver_ident extract ident); auto.
      * now intros [_ ->].
Qed.

Lemma ensureVehicleEx_fails_iff_witness :
  (forall w, In w [abc123; xyz789] -> extractVIN w = (VIN w, None)) /\
  (ensureVehicleEx "tm..." (Ok [abc123; xyz789]) extractVIN
   = Err (ErrCannotFindVehicle ["ABC123"; "XYZ789"]) <->
   (("tm..." <> "" /\ NoMatch VIN "tm..." [abc123; xyz789]) \/
    ("tm..." = "" /\ List.length [abc123; xyz789] <> 1%nat)) /\
   ErrCannotFindVehicle ["ABC123"; "XYZ789"]
   = ErrCannotFindVehicle (map VIN [abc123; xyz789])).
Proof.
  split.
  - intros w _. reflexivity.
  - apply (ensureVehicleEx_fails_iff extractVIN VIN "tm..." [abc123; xyz789]).
    intros w _. reflexivity.
Defined.

(** C2 as stated does not hold: a filter that matches nothing (the
    specification's [NotFound]) and an empty filter over two entities (its
    [Ambiguous]) fail with the very same error, so nothing computed from the
    resolver's answer tells the two kinds apart. *)
Lemma resolution_failure_kinds_coincide :
  ensureVehicleEx "nope" (Ok [abc123; xyz789]) extractVIN
  = Err (ErrCannotFindVehicle ["ABC123"; "XYZ789"]) /\
  ensureVehicleEx "" (Ok [abc123; xyz789]) extractVIN
  = Err (ErrCannotFindVehicle ["ABC123"; "XYZ789"]) /\
  ~ (exists kind : result Vehicle -> ResolutionFailure,
       kind (ensureVehicleEx "nope" (Ok [abc123; xyz789]) extractVIN)
       = NotFound /\
       kind (ensureVehicleEx "" (Ok [abc123; xyz789]) extractVIN)
       = Ambiguous).
Proof.
  repeat split; try reflexivity.
  intros (kind & Hnf & Hamb).
  change (ensureVehicleEx "" (Ok [abc123; xyz789]) extractVIN)
    with (ensureVehicleEx "nope" (Ok [abc123; xyz789]) extractVIN) in Hamb.
  rewrite Hnf in Hamb. discriminate.
Qed.

Example cannot_find_message :
  Error (ErrCannotFindVehicle ["ABC123"; "XYZ789"])
  = "cannot find vehicle, got: [ABC123 XYZ789]".
Proof. reflexivity. Qed.

(** C10, as the code has it: with a non-empty filter, an extraction error
    met by the scan before any match ends the resolution with that very
    error, whatever follows in the list, and the error carries no
    identifier list; when the [cannot find vehicle] diagnostic is built, the
    extraction error is dropped and the entity is listed with the string its
    extraction handed back next to the error, which is the empty string for
    a callback that returns the zero value with an error. *)
Theorem ensureVehicleEx_extract_error `{CaseFolding} {T : Type}
        (extract : T -> string * option error) (filter : string)
        (before after : list T) (w : T) (e : error) :
  snd (extract w) = Some e ->
  (filter <> "" ->
   (forall u, In u before -> passedOver extract (ToUpper filter) u) ->
   ensureVehicleEx filter (Ok (before ++ w :: after)%list) extract = Err e) /\
  (List.length (before ++ w :: after)%list <> 1%nat ->
   ensureVehicleEx "" (Ok (before ++ w :: after)%list) extract
   = Err (ErrCannotFindVehicle
            (map (listedAs extract) before ++ fst (extract w) ::
             map (listedAs extract) after)%list)) /\
  (List.length (before ++ w :: after)%list <> 1%nat ->
   fst (extract w) = "" ->
   ensureVehicleEx "" (Ok (before ++ w :: after)%list) extract
   = Err (ErrCannotFindVehicle
            (map (listedAs extract) before ++ "" ::
             map (listedAs extract) after)%list)).
Proof.
  intros Hw.
  assert (Hlist : List.length (before ++ w :: after)%list <> 1%nat ->
                  ensureVehicleEx "" (Ok (before ++ w :: after)%list) extract
                  = Err (ErrCannotFindVehicle
                           (map (listedAs extract) before ++ fst (extract w) ::
                            map (listedAs extract) after)%list)).
  { intros Hlen. rewrite ensureVehicleEx_no_filter, gotIdentifiers_listedAs.
    rewrite map_app. simpl map. fold (listedAs extract w).
    destruct (before ++ w :: after)%list as [|a [|b rest]] eqn:El;
      [reflexivity | now elim Hlen | reflexivity]. }
  split; [|split].
  - intros Hne Hpre. rewrite ensureVehicleEx_filter by assumption.
    assert (Escan : scanVehicles (ToUpper filter) extract
                      (before ++ w :: after)%list = Some (Err e)).
    { apply scanVehicles_Err. now exists before, w, after. }
    now rewrite Escan.
  - exact Hlist.
  - intros Hlen Hzero. now rewrite (Hlist Hlen), Hzero.
Qed.

Lemma ensureVehicleEx_extract_error_witness :
  snd (extractChecked unnamed) = Some (ErrRemote "vehicle without VIN") /\
  ensureVehicleEx "xyz789" (Ok [abc123; unnamed; xyz789]) extractChecked
  = Err (ErrRemote "vehicle without VIN") /\
  ensureVehicleEx "" (Ok [abc123; unnamed; xyz789]) extractChecked
  = Err (ErrCannotFindVehicle ["ABC123"; ""; "XYZ789"]).
Proof.
  destruct (ensureVehicleEx_extract_error (H := asciiFolding) extractChecked
              "xyz789" [abc123] [xyz789] unnamed
              (e := ErrRemote "vehicle without VIN") eq_refl)
    as (Hscan & _ & Hlist).
  split; [reflexivity|]. split.
  - apply Hscan; [discriminate|].
    intros u [<-|[]]. exists "ABC123". split; [reflexivity | discriminate].
  - apply Hlist; [simpl; lia | reflexivity].
Defined.

(** C10 as stated does not hold: the extraction of the second vehicle fails
    but hands back its VIN, and the diagnostic lists that VIN, not the empty
    string. *)
Lemma failed_extraction_keeps_its_string :
  extractUnsold xyz789 = ("XYZ789", Some (ErrRemote "vehicle sold")) /\
  ensureVehicleEx "" (Ok [abc123; xyz789]) extractUnsold
  = Err (ErrCannotFindVehicle ["ABC123"; "XYZ789"]) /\
  ensureVehicleEx "" (Ok [abc123; xyz789]) extractUnsold
  <> Err (ErrCannotFindVehicle ["ABC123"; ""]).
Proof.
  split; [reflexivity|]. split; [reflexivity|]. discriminate.
Qed.

(** ** The state mapper *)

(** The switch agrees with a lookup in the table. *)
Lemma switchStatus_statusNumber (code : string) (s : Sink) :
  switchStatus code s =
  match statusNumber code with
  | Some number =>
      mkRun [GaugeSet evStatus number] (gaugeStore evStatus number s) (Done tt)
  | None => mkRun [LogPrint ("Unknown status: " ++ code)] s (Done tt)
  end.
Proof.
  unfold switchStatus, statusNumber, statusTable, lookupStatus.
  repeat (match goal with
          | |- context [(code =? ?k)%string] =>
              destruct (code =? k)%string; [reflexivity|]
          end).
  reflexivity.
Qed.

Lemma statusNumber_unknown (code : string) :
  statusNumber code = None <-> ~ In code (map fst statusTable).
Proof.
  unfold statusNumber, statusTable, lookupStatus. simpl.
  repeat (match goal with
          | |- context [(code =? ?k)%string] =>
              destruct (String.eqb_spec code k) as [->|?];
              [split; [discriminate | intros Hn; elim Hn; tauto]|]
          end).
  split; [|reflexivity]. intros _ Hin.
  repeat (destruct Hin as [Hin|Hin]; [symmetry in Hin; contradiction|]).
  exact Hin.
Qed.

(** C3: the switch is the fixed table.  The empty code publishes 0 and the
    codes A to F publish 1 to 6 on the status gauge; any other code
    publishes nothing, logs [Unknown status:] followed by the code, and
    leaves every gauge, the status gauge included, as it was. *)
Theorem switchStatus_table (s : Sink) :
  statusTable =
  [("", 0%float); ("A", 1%float); ("B", 2%float); ("C", 3%float);
   ("D", 4%float); ("E", 5%float); ("F", 6%float)] /\
  (forall code number,
      In (code, number) statusTable ->
      switchStatus code s =
      mkRun [GaugeSet evStatus number] (gaugeStore evStatus number s)
            (Done tt)) /\
  (forall code,
      ~ In code (map fst statusTable) ->
      switchStatus code s =
      mkRun [LogPrint ("Unknown status: " ++ code)] s (Done tt)).
Proof.
  split; [reflexivity|]. split.
  - intros code number Hin. simpl in Hin.
    repeat (destruct Hin as [Hin|Hin];
            [injection Hin as <- <-; reflexivity|]).
    contradiction.
  - intros code Hcode. apply statusNumber_unknown in Hcode.
    now rewrite switchStatus_statusNumber, Hcode.
Qed.

Lemma switchStatus_table_witness :
  In ("C", 3%float) statusTable /\
  switchStatus "C" emptySink
  = mkRun [GaugeSet evStatus 3%float]
          (mkSink None None (Some 3%float) None None) (Done tt) /\
  ~ In "G" (map fst statusTable) /\
  switchStatus "G" (mkSink None None (Some 3%float) None None)
  = mkRun [LogPrint "Unknown status: G"]
          (mkSink None None (Some 3%float) None None) (Done tt).
Proof.
  assert (HC : In ("C", 3%float) statusTable) by (simpl; tauto).
  assert (HG : ~ In "G" (map fst statusTable)).
  { simpl. intros Hin.
    repeat (destruct Hin as [Hin|Hin]; [discriminate|]). exact Hin. }
  split; [exact HC|]. split.
  - exact (proj1 (proj2 (switchStatus_table emptySink)) "C" 3%float HC).
  - split; [exact HG|].
    exact (proj2 (proj2 (switchStatus_table
                           (mkSink None None (Some 3%float) None None)))
                 "G" HG).
Defined.

(** ** One iteration of the goroutine *)

Arguments float64_of_int64 : simpl never.

Lemma bind_Done {A B : Type} (m : M A) (k : A -> M B) (s : Sink) (a : A) :
  ending (m s) = Done a ->
  bind m k s =
  mkRun (events (m s) ++ events (k a (gauges (m s))))%list
        (gauges (k a (gauges (m s)))) (ending (k a (gauges (m s)))).
Proof.
  intros Hm. unfold bind. now rewrite Hm.
Qed.

(** What the part of an iteration serving one gauge does: it calls the
    fetch, stores a fresh reading if there is one, and goes on. *)
Lemma pollGauge_run (remote : Remote) (vehicle : Vehicle) (g : gauge)
      (s : Sink) :
  exists logged,
    pollGauge remote vehicle g s =
    match fresh remote vehicle g with
    | Some x => mkRun [CallFetch g; GaugeSet g x] (gaugeStore g x s) (Done tt)
    | None => mkRun [CallFetch g; LogPrint logged] s (Done tt)
    end.
Proof.
  destruct g; unfold pollGauge, fresh.
  - unfold pollRange, bind. simpl.
    destruct (Range remote vehicle) as [x|e];
      [exists "" | eexists]; reflexivity.
  - unfold pollSoc, bind. simpl.
    destruct (Soc remote vehicle) as [x|e];
      [exists "" | eexists]; reflexivity.
  - unfold pollStatus, bind. simpl.
    destruct (Status remote vehicle) as [code|e].
    + exists ("Unknown status: " ++ code).
      rewrite switchStatus_statusNumber.
      destruct (statusNumber code); reflexivity.
    + eexists. reflexivity.
  - unfold pollFinishTime, bind. simpl.
    destruct (FinishTime remote vehicle) as [x|e];
      [exists "" | eexists]; reflexivity.
  - unfold pollOdometer, bind. simpl.
    destruct (Odometer remote vehicle) as [x|e];
      [exists "" | eexists]; reflexivity.
Qed.

Lemma pollGauge_then (remote : Remote) (vehicle : Vehicle) (g : gauge)
      (k : M unit) (s : Sink) :
  exists e,
    isSleep e = false /\ isFetch e = false /\ isSessionCall e = false /\
    (if isGaugeSet e then [e] else []) = setOf remote vehicle g /\
    (pollGauge remote vehicle g ;; k) s =
    mkRun (CallFetch g :: e :: events (k (storeFresh remote vehicle s g)))
          (gauges (k (storeFresh remote vehicle s g)))
          (ending (k (storeFresh remote vehicle s g))).
Proof.
  destruct (pollGauge_run remote vehicle g s) as [logged E].
  unfold bind, storeFresh, setOf. rewrite E.
  destruct (fresh remote vehicle g) as [x|].
  - exists (GaugeSet g x). repeat split.
  - exists (LogPrint logged). repeat split.
Qed.

Section IterationFacts.
Context `{CaseFolding}.
Variable flags : Flags.
Variable remote : Remote.

Lemma pollOnce_login_failed (s : Sink) (err : error) :
  Login remote = Some err ->
  pollOnce flags remote s =
  mkRun [CallNewIdentity;
         CallLogin (username flags) (token flags) "en" "hyundai";
         LogPrint (Error err); Sleep (pollDuration flags)] s (Done tt).
Proof.
  intros E. unfold pollOnce, bind. simpl. now rewrite E.
Qed.

Lemma pollOnce_not_resolved (s : Sink) (err : error) :
  Login remote = None ->
  ensureVehicleEx (vin flags) (Vehicles remote) extractVIN = Err err ->
  pollOnce flags remote s =
  mkRun [CallNewIdentity;
         CallLogin (username flags) (token flags) "en" "hyundai";
         CallNewAPI; CallVehicles;
         LogPrint (Error err); Sleep (pollDuration flags)] s (Done tt).
Proof.
  intros E R. unfold pollOnce, bind. simpl.
  rewrite E. simpl. now rewrite R.
Qed.

Lemma pollOnce_polling (s : Sink) (vehicle : Vehicle) :
  Login remote = None ->
  ensureVehicleEx (vin flags) (Vehicles remote) extractVIN = Ok vehicle ->
  exists body,
    pollOnce flags remote s =
    mkRun (sessionOpened flags vehicle ++ body ++ [Sleep (pollDuration flags)])
          (polled remote vehicle s) (Done tt) /\
    filter isFetch body = map CallFetch allGauges /\
    filter isGaugeSet body = flat_map (setOf remote vehicle) allGauges /\
    filter isSleep body = [] /\
    filter isSessionCall body = [].
Proof.
  intros E R.
  set (sleep := time_Sleep (pollDuration flags)).
  set (k5 := pollGauge remote vehicle evOdometer ;; sleep).
  set (k4 := pollGauge remote vehicle evFinishTime ;; k5).
  set (k3 := pollGauge remote vehicle evStatus ;; k4).
  set (k2 := pollGauge remote vehicle evSoc ;; k3).
  set (k1 := pollGauge remote vehicle evRange ;; k2).
  assert (Hrun : pollOnce flags remote s =
                 mkRun ([CallNewIdentity;
                         CallLogin (username flags) (token flags) "en" "hyundai";
                         CallNewAPI; CallVehicles; CallNewProvider vehicle]
                        ++ events (k1 s))%list (gauges (k1 s)) (ending (k1 s))).
  { unfold pollOnce, bind at 1 2 3 4 5 6. simpl. rewrite E. simpl.
    rewrite R. simpl. reflexivity. }
  rewrite Hrun. clear Hrun.
  destruct (pollGauge_then remote vehicle evRange k2 s)
    as (e1 & S1 & F1 & C1 & G1 & E1).
  destruct (pollGauge_then remote vehicle evSoc k3
              (storeFresh remote vehicle s evRange))
    as (e2 & S2 & F2 & C2 & G2 & E2).
  destruct (pollGauge_then remote vehicle evStatus k4
              (storeFresh remote vehicle
                 (storeFresh remote vehicle s evRange) evSoc))
    as (e3 & S3 & F3 & C3 & G3 & E3).
  destruct (pollGauge_then remote vehicle evFinishTime k5
              (storeFresh remote vehicle
                 (storeFresh remote vehicle
                    (storeFresh remote vehicle s evRange) evSoc) evStatus))
    as (e4 & S4 & F4 & C4 & G4 & E4).
  destruct (pollGauge_then remote vehicle evOdometer sleep
              (storeFresh remote vehicle
                 (storeFresh remote vehicle
                    (storeFresh remote vehicle
                       (storeFresh remote vehicle s evRange) evSoc)
                    evStatus) evFinishTime))
    as (e5 & S5 & F5 & C5 & G5 & E5).
  fold k1 in E1. fold k2 in E2. fold k3 in E3. fold k4 in E4. fold k5 in E5.
  rewrite E1, E2, E3, E4, E5. simpl.
  exists [CallFetch evRange; e1; CallFetch evSoc; e2; CallFetch evStatus; e3;
          CallFetch evFinishTime; e4; CallFetch evOdometer; e5].
  split; [reflexivity|].
  simpl. rewrite S1, S2, S3, S4, S5, F1, F2, F3, F4, F5, C1, C2, C3, C4, C5.
  repeat split.
  rewrite <- G1, <- G2, <- G3, <- G4, <- G5.
  destruct (isGaugeSet e1), (isGaugeSet e2), (isGaugeSet e3),
           (isGaugeSet e4), (isGaugeSet e5); reflexivity.
Qed.
End IterationFacts.

(** ** Gauges after an iteration *)

Lemma polled_gaugeValue (remote : Remote) (vehicle : Vehicle) (s : Sink)
      (g : gauge) :
  gaugeValue g (polled remote vehicle s) =
  match fresh remote vehicle g with
  | Some x => Some x
  | None => gaugeValue g s
  end.
Proof.
  unfold polled, allGauges. simpl. unfold storeFresh.
  destruct g;
    destruct (fresh remote vehicle evRange), (fresh remote vehicle evSoc),
             (fresh remote vehicle evStatus),
             (fresh remote vehicle evFinishTime),
             (fresh remote vehicle evOdometer); reflexivity.
Qed.

Lemma setOf_In (remote : Remote) (vehicle : Vehicle) (g : gauge) (x : float) :
  In (GaugeSet g x) (flat_map (setOf remote vehicle) allGauges) <->
  fresh remote vehicle g = Some x.
Proof.
  rewrite in_flat_map. unfold setOf. split.
  - intros (g' & _ & Hin).
    destruct (fresh remote vehicle g') as [y|] eqn:E; [|now destruct Hin].
    destruct Hin as [[= <- <-]|[]]. exact E.
  - intros E. exists g. split.
    + unfold allGauges. destruct g; simpl; tauto.
    + rewrite E. now left.
Qed.

Lemma fresh_None (remote : Remote) (vehicle : Vehicle) (g : gauge) :
  fresh remote vehicle g = None <->
  fetchFails remote vehicle g \/
  (g = evStatus /\ unknownStatus remote vehicle).
Proof.
  unfold unknownStatus.
  destruct g; unfold fresh, fetchFails; simpl.
  - destruct (Range remote vehicle) as [x|e]; split; try discriminate.
    + intros [[e E]|[E _]]; discriminate.
    + intros _. left. now exists e.
    + reflexivity.
  - destruct (Soc remote vehicle) as [x|e]; split; try discriminate.
    + intros [[e E]|[E _]]; discriminate.
    + intros _. left. now exists e.
    + reflexivity.
  - destruct (Status remote vehicle) as [code|e].
    + rewrite statusNumber_unknown. split.
      * intros Hc. right. split; trivial. now exists code.
      * intros [[e E]|[_ (code' & [= <-] & Hc)]]; [discriminate | exact Hc].
    + split; [|reflexivity]. intros _. left. now exists e.
  - destruct (FinishTime remote vehicle) as [x|e]; split; try discriminate.
    + intros [[e E]|[E _]]; discriminate.
    + intros _. left. now exists e.
    + reflexivity.
  - destruct (Odometer remote vehicle) as [x|e]; split; try discriminate.
    + intros [[e E]|[E _]]; discriminate.
    + intros _. left. now exists e.
    + reflexivity.
Qed.

Section GaugeFacts.
Context `{CaseFolding}.
Variable flags : Flags.

(** An iteration ends in one of three ways. *)
Lemma pollOnce_cases (remote : Remote) :
  (exists err, Login remote = Some err) \/
  (Login remote = None /\
   exists err,
     ensureVehicleEx (vin flags) (Vehicles remote) extractVIN = Err err) \/
  (Login remote = None /\
   exists vehicle,
     ensureVehicleEx (vin flags) (Vehicles remote) extractVIN = Ok vehicle).
Proof.
  destruct (Login remote) as [err|]; [left; now exists err|]. right.
  destruct (ensureVehicleEx (vin flags) (Vehicles remote) extractVIN)
    as [vehicle|err]; [right | left]; split; trivial; eexists; reflexivity.
Qed.

Lemma pollOnce_continues (remote : Remote) (s : Sink) :
  ending (pollOnce flags remote s) = Done tt.
Proof.
  destruct (pollOnce_cases remote)
    as [[err E]|[[E [err R]]|[E [vehicle R]]]].
  - now rewrite (pollOnce_login_failed flags remote s E).
  - now rewrite (pollOnce_not_resolved flags remote s E R).
  - destruct (pollOnce_polling flags remote s E R) as (body & -> & _).
    reflexivity.
Qed.

Lemma pollOnce_gaugeValue (remote : Remote) (s : Sink) (g : gauge) :
  gaugeValue g (gauges (pollOnce flags remote s)) =
  match freshIn flags remote g with
  | Some x => Some x
  | None => gaugeValue g s
  end.
Proof.
  unfold freshIn.
  destruct (pollOnce_cases remote)
    as [[err E]|[[E [err R]]|[E [vehicle R]]]].
  - now rewrite (pollOnce_login_failed flags remote s E), E.
  - now rewrite (pollOnce_not_resolved flags remote s E R), E, R.
  - destruct (pollOnce_polling flags remote s E R) as (body & -> & _).
    rewrite E, R. apply polled_gaugeValue.
Qed.

Lemma pollOnce_GaugeSet (remote : Remote) (s : Sink) (g : gauge) (x : float) :
  In (GaugeSet g x) (events (pollOnce flags remote s)) <->
  freshIn flags remote g = Some x.
Proof.
  unfold freshIn.
  destruct (pollOnce_cases remote)
    as [[err E]|[[E [err R]]|[E [vehicle R]]]].
  - rewrite (pollOnce_login_failed flags remote s E), E. simpl.
    split; [|discriminate].
    intros Hin. repeat (destruct Hin as [Hin|Hin]; [discriminate|]).
    contradiction.
  - rewrite (pollOnce_not_resolved flags remote s E R), E, R. simpl.
    split; [|discriminate].
    intros Hin. repeat (destruct Hin as [Hin|Hin]; [discriminate|]).
    contradiction.
  - destruct (pollOnce_polling flags remote s E R)
      as (body & -> & _ & Hsets & _).
    rewrite E, R, <- setOf_In, <- Hsets. simpl events.
    rewrite filter_In. simpl. split.
    + intros Hin.
      repeat (destruct Hin as [Hin|Hin]; [discriminate|]).
      apply in_app_or in Hin. destruct Hin as [Hin|[Hin|[]]];
        [now split | discriminate].
    + intros [Hin _]. do 5 right. apply in_or_app. now left.
Qed.
End GaugeFacts.

(** ** The loop *)

Arguments pollOnce : simpl never.

Section LoopFacts.
Context `{CaseFolding}.
Variable flags : Flags.

Lemma pollLoop_cons (remote : Remote) (later : list Remote) (s : Sink) :
  pollLoop flags (remote :: later) s =
  mkRun (events (pollOnce flags remote s) ++
         events (pollLoop flags later (gauges (pollOnce flags remote s))))%list
        (gauges (pollLoop flags later (gauges (pollOnce flags remote s))))
        (ending (pollLoop flags later (gauges (pollOnce flags remote s)))).
Proof.
  change (pollLoop flags (remote :: later))
    with (pollOnce flags remote ;; pollLoop flags later).
  apply bind_Done with (a := tt). apply pollOnce_continues.
Qed.

(** Every iteration is a body without any sleep, opened by a new
    identity, followed by one sleep of the poll duration. *)
Lemma pollOnce_body (remote : Remote) (s : Sink) :
  exists body,
    events (pollOnce flags remote s) =
    (body ++ [Sleep (pollDuration flags)])%list /\
    filter isSleep body = [] /\
    hd_error body = Some CallNewIdentity /\
    filter isSessionCall body = sessionCalls flags remote.
Proof.
  unfold sessionCalls.
  destruct (pollOnce_cases flags remote)
    as [[err E]|[[E [err R]]|[E [vehicle R]]]].
  - rewrite (pollOnce_login_failed flags remote s E), E.
    exists [CallNewIdentity;
            CallLogin (username flags) (token flags) "en" "hyundai";
            LogPrint (Error err)]. repeat split.
  - rewrite (pollOnce_not_resolved flags remote s E R), E.
    exists [CallNewIdentity;
            CallLogin (username flags) (token flags) "en" "hyundai";
            CallNewAPI; CallVehicles; LogPrint (Error err)]. repeat split.
  - destruct (pollOnce_polling flags remote s E R)
      as (body & -> & _ & _ & Hsleep & Hsession).
    rewrite E. exists (sessionOpened flags vehicle ++ body)%list.
    cbn [events]. repeat split.
    + rewrite filter_app, Hsleep. reflexivity.
    + rewrite filter_app, Hsession. reflexivity.
Qed.

Lemma pollLoop_continues (remotes : list Remote) (s : Sink) :
  ending (pollLoop flags remotes s) = Done tt.
Proof.
  revert s. induction remotes as [|remote later IH]; intros s.
  - reflexivity.
  - rewrite pollLoop_cons. simpl. apply IH.
Qed.

Lemma pollLoop_bodies (remotes : list Remote) (s : Sink) :
  exists bodies,
    events (pollLoop flags remotes s) =
    flat_map (fun body => body ++ [Sleep (pollDuration flags)])%list bodies /\
    List.length bodies = List.length remotes /\
    Forall (fun body => filter isSleep body = [] /\
                        hd_error body = Some CallNewIdentity) bodies.
Proof.
  revert s. induction remotes as [|remote later IH]; intros s.
  - exists []. repeat split. constructor.
  - rewrite pollLoop_cons. cbn [events].
    destruct (pollOnce_body remote s) as (body & -> & Hsleep & Hhd & _).
    destruct (IH (gauges (pollOnce flags remote s)))
      as (bodies & -> & Hlen & Hall).
    exists (body :: bodies). simpl. repeat split.
    + now rewrite Hlen.
    + constructor; [now split | exact Hall].
Qed.

Lemma pollLoop_sessionCalls (remotes : list Remote) (s : Sink) :
  filter isSessionCall (events (pollLoop flags remotes s)) =
  flat_map (sessionCalls flags) remotes.
Proof.
  revert s. induction remotes as [|remote later IH]; intros s.
  - reflexivity.
  - rewrite pollLoop_cons. cbn [events].
    destruct (pollOnce_body remote s) as (body & -> & _ & _ & Hsession).
    rewrite !filter_app, IH, Hsession. simpl.
    now rewrite app_nil_r.
Qed.

Lemma pollLoop_keeps (remotes : list Remote) (s : Sink) (g : gauge) :
  gaugeValue g s <> None ->
  gaugeValue g (gauges (pollLoop flags remotes s)) <> None.
Proof.
  revert s. induction remotes as [|remote later IH]; intros s Hset.
  - exact Hset.
  - rewrite pollLoop_cons. cbn [gauges]. apply IH.
    rewrite pollOnce_gaugeValue.
    destruct (freshIn flags remote g); [discriminate | exact Hset].
Qed.

Lemma pollLoop_stale (remotes : list Remote) (s : Sink) (g : gauge) :
  (forall remote, In remote remotes -> freshIn flags remote g = None) ->
  gaugeValue g (gauges (pollLoop flags remotes s)) = gaugeValue g s.
Proof.
  revert s. induction remotes as [|remote later IH]; intros s Hnone.
  - reflexivity.
  - rewrite pollLoop_cons. cbn [gauges].
    rewrite IH by (intros r Hr; apply Hnone; now right).
    rewrite pollOnce_gaugeValue, (Hnone remote) by now left.
    reflexivity.
Qed.
End LoopFacts.

Lemma pollDuration_seconds (flags : Flags) :
  0 <= pollInterval flags <= 9223372036 ->
  pollDuration flags = pollInterval flags * 1000000000.
Proof.
  intros Hrange. unfold pollDuration, wrap64, Second.
  rewrite Z.mod_small; lia.
Qed.

Lemma flag_Parse_vin (args : list flagArg) :
  (forall s, ~ In (ArgVin s) args) ->
  vin (flag_Parse args) = "TM...".
Proof.
  unfold flag_Parse.
  change "TM..." with (vin flagDefaults).
  generalize flagDefaults.
  induction args as [|a rest IH]; intros f Hno; [reflexivity|].
  simpl. rewrite IH by (intros s Hs; apply (Hno s); now right).
  destruct a; try reflexivity.
  elim (Hno s). now left.
Qed.

(** ** The command line *)

(** C4, as the code has it: with no flag given the listen address is
    [:9333] and the poll interval is 60 seconds, and the VIN filter is the
    placeholder [TM...], not the empty string: unless [-vin] is given, the
    resolver looks for that identifier, and over a list of one vehicle it
    succeeds only if the vehicle's identifier matches it.  With [-version]
    the process prints the build information and leaves with code 0
    before any iteration of the loop. *)
Theorem flag_defaults `{CaseFolding} :
  listenAddr (flag_Parse []) = ":9333" /\
  pollInterval (flag_Parse []) = 60 /\
  pollDuration (flag_Parse []) = 60 * Second /\
  (forall args,
      (forall s, ~ In (ArgVin s) args) -> vin (flag_Parse args) = "TM...") /\
  (forall vehicle : Vehicle,
      ensureVehicleEx (vin (flag_Parse [])) (Ok [vehicle]) extractVIN
      = Ok vehicle <->
      ToUpper (VIN vehicle) = ToUpper "TM...") /\
  (forall buildInfo args listen remotes,
      showVersion (flag_Parse args) = true ->
      main buildInfo args listen remotes =
      mkRun [Printf (buildInfo ++ String (ascii_of_nat 10) "")] emptySink
            (Exit 0)).
Proof.
  split; [reflexivity|]. split; [reflexivity|]. split; [reflexivity|].
  split; [exact flag_Parse_vin|]. split.
  - intros vehicle. change (vin (flag_Parse [])) with "TM...".
    rewrite ensureVehicleEx_filter by discriminate.
    simpl. destruct (String.eqb_spec (ToUpper (VIN vehicle)) (ToUpper "TM..."))
      as [E|E].
    + split; trivial.
    + split; [discriminate | contradiction].
  - intros buildInfo args listen remotes Hversion.
    unfold main. rewrite Hversion. reflexivity.
Qed.

Lemma flag_defaults_witness :
  (forall s, ~ In (ArgVin s) [ArgPollInterval 30]) /\
  vin (flag_Parse [ArgPollInterval 30]) = "TM..." /\
  showVersion (flag_Parse [ArgVersion true]) = true /\
  main "ioniq_exporter, version 0.1.0" [ArgVersion true]
       (ServeFails 0 (ErrRemote "listen tcp :9333: bind failed"))
       [remoteHealthy]
  = mkRun [Printf ("ioniq_exporter, version 0.1.0" ++
                   String (ascii_of_nat 10) "")] emptySink (Exit 0).
Proof.
  assert (Hno : forall s, ~ In (ArgVin s) [ArgPollInterval 30]).
  { intros s [Hs|[]]. discriminate. }
  destruct (@flag_defaults asciiFolding) as (_ & _ & _ & Hvin & _ & Hver).
  split; [exact Hno|]. split; [exact (Hvin _ Hno)|].
  split; [reflexivity|].
  exact (Hver "ioniq_exporter, version 0.1.0" [ArgVersion true]
              (ServeFails 0 (ErrRemote "listen tcp :9333: bind failed"))
              [remoteHealthy] eq_refl).
Defined.

(** C4 as stated does not hold: with no [-vin] flag the filter is not
    empty, and a lone vehicle is not taken; it is with an empty [-vin]. *)
Lemma default_vin_is_a_filter :
  vin (flag_Parse []) <> "" /\
  ensureVehicleEx (vin (flag_Parse [])) (Ok [abc123]) extractVIN
  = Err (ErrCannotFindVehicle ["ABC123"]) /\
  ensureVehicleEx (vin (flag_Parse [ArgVin ""])) (Ok [abc123]) extractVIN
  = Ok abc123.
Proof.
  split; [discriminate|]. split; reflexivity.
Qed.

(** ** The gauges *)

(** C9: when the finish time is fetched, the finish-time gauge is set, only
    once, to the [float64] of the whole seconds since the Unix epoch of the
    instant. *)
Theorem finish_time_is_unix_seconds `{CaseFolding} (flags : Flags)
        (remote : Remote) (s : Sink) (vehicle : Vehicle) (finishTime : Time) :
  Login remote = None ->
  ensureVehicleEx (vin flags) (Vehicles remote) extractVIN = Ok vehicle ->
  FinishTime remote vehicle = Ok finishTime ->
  gaugeValue evFinishTime (gauges (pollOnce flags remote s))
  = Some (float64_of_int64 (Unix finishTime)) /\
  filter (fun e => match e with GaugeSet evFinishTime _ => true | _ => false end)
         (events (pollOnce flags remote s))
  = [GaugeSet evFinishTime (float64_of_int64 (Unix finishTime))].
Proof.
  intros E R F.
  assert (Hfresh : fresh remote vehicle evFinishTime
                   = Some (float64_of_int64 (Unix finishTime)))
    by (unfold fresh; now rewrite F).
  split.
  - rewrite pollOnce_gaugeValue. unfold freshIn. now rewrite E, R, Hfresh.
  - destruct (pollOnce_polling flags remote s E R)
      as (body & -> & _ & Hsets & _).
    cbn [events].
    set (p := fun e => match e with
                       | GaugeSet evFinishTime _ => true | _ => false end).
    assert (Hp : forall l, filter p l = filter p (filter isGaugeSet l)).
    { induction l as [|e l IH]; [reflexivity|]. simpl.
      destruct e as [| | | | | |g x| | |]; simpl; trivial.
      destruct g; simpl; now rewrite IH. }
    rewrite !filter_app, (Hp body), Hsets. unfold allGauges.
    cbn [flat_map]. unfold setOf. rewrite Hfresh.
    destruct (fresh remote vehicle evRange), (fresh remote vehicle evSoc),
             (fresh remote vehicle evStatus),
             (fresh remote vehicle evOdometer); reflexivity.
Qed.

Lemma finish_time_is_unix_seconds_witness :
  Login remoteHealthy = None /\
  ensureVehicleEx (vin flagsXYZ) (Vehicles remoteHealthy) extractVIN
  = Ok xyz789 /\
  FinishTime remoteHealthy xyz789 = Ok (mkTime 1700000000 500000000) /\
  gaugeValue evFinishTime (gauges (pollOnce flagsXYZ remoteHealthy emptySink))
  = Some 1700000000%float.
Proof.
  split; [reflexivity|]. split; [reflexivity|]. split; [reflexivity|].
  exact (proj1 (finish_time_is_unix_seconds flagsXYZ remoteHealthy emptySink
                  (vehicle := xyz789)
                  (finishTime := mkTime 1700000000 500000000)
                  eq_refl eq_refl eq_refl)).
Defined.

(** C5, as the code has it: in every iteration a gauge takes the fresh
    reading of its own fetch and no other gauge is touched by it; where
    there is no fresh reading (the iteration stopped early, the fetch
    failed, or the status fetch answered a code outside the table) nothing
    is stored and the gauge keeps its value.  [Gauge.Set] is called exactly
    for the fresh readings.  Over any number of iterations a gauge that has
    a value never loses it, and it keeps the same value as long as no
    iteration brings a fresh reading for it. *)
Theorem gauges_change_only_by_fresh_readings `{CaseFolding} (flags : Flags) :
  (forall remote s g,
      gaugeValue g (gauges (pollOnce flags remote s)) =
      match freshIn flags remote g with
      | Some x => Some x
      | None => gaugeValue g s
      end) /\
  (forall remote s g x,
      In (GaugeSet g x) (events (pollOnce flags remote s)) <->
      freshIn flags remote g = Some x) /\
  (forall remote vehicle g,
      fresh remote vehicle g = None <->
      fetchFails remote vehicle g \/
      (g = evStatus /\ unknownStatus remote vehicle)) /\
  (forall remotes s g,
      gaugeValue g s <> None ->
      gaugeValue g (gauges (pollLoop flags remotes s)) <> None) /\
  (forall remotes s g,
      (forall remote, In remote remotes -> freshIn flags remote g = None) ->
      gaugeValue g (gauges (pollLoop flags remotes s)) = gaugeValue g s).
Proof.
  split; [exact (pollOnce_gaugeValue flags)|].
  split; [exact (pollOnce_GaugeSet flags)|].
  split; [exact fresh_None|].
  split; [exact (pollLoop_keeps flags) | exact (pollLoop_stale flags)].
Qed.

Lemma gauges_change_only_by_fresh_readings_witness :
  gaugeValue evRange (mkSink (Some 250%float) None None None None) <> None /\
  (forall remote,
      In remote [withoutRange remoteHealthy; withoutLogin remoteHealthy] ->
      freshIn flagsXYZ remote evRange = None) /\
  gaugeValue evRange
    (gauges (pollLoop flagsXYZ
               [withoutRange remoteHealthy; withoutLogin remoteHealthy]
               (mkSink (Some 250%float) None None None None)))
  = Some 250%float.
Proof.
  assert (Hstale : forall remote,
             In remote [withoutRange remoteHealthy; withoutLogin remoteHealthy] ->
             freshIn flagsXYZ remote evRange = None).
  { intros remote [<-|[<-|[]]]; reflexivity. }
  split; [discriminate|]. split; [exact Hstale|].
  exact (proj2 (proj2 (proj2 (proj2
           (gauges_change_only_by_fresh_readings flagsXYZ))))
           [withoutRange remoteHealthy; withoutLogin remoteHealthy]
           (mkSink (Some 250%float) None None None None) evRange Hstale).
Defined.

(** C5 as stated does not hold: the status fetch succeeds with the code
    [G], yet the status gauge is not written: it has no value after the
    iteration and no [Gauge.Set] reaches it. *)
Lemma fetched_status_not_stored :
  Status (withStatus "G" remoteHealthy) xyz789 = Ok "G" /\
  gaugeValue evStatus
    (gauges (pollOnce flagsXYZ (withStatus "G" remoteHealthy) emptySink))
  = None /\
  filter isGaugeSet
    (events (pollOnce flagsXYZ (withStatus "G" remoteHealthy) emptySink))
  = [GaugeSet evRange 320%float; GaugeSet evSoc 80%float;
     GaugeSet evFinishTime 1700000000%float;
     GaugeSet evOdometer 12345.5%float].
Proof.
  repeat split.
Qed.

(** C6, as the code has it: in an iteration that reaches the provider all
    five fetches are made, in order, whichever of them fail; every fetch
    with a fresh reading sets its own gauge to it whatever the other
    fetches did; and a fetch has a fresh reading whenever it succeeds,
    provided, for the status, that the code is one of the table. *)
Theorem fetches_are_isolated `{CaseFolding} (flags : Flags) (remote : Remote)
        (s : Sink) (vehicle : Vehicle) :
  Login remote = None ->
  ensureVehicleEx (vin flags) (Vehicles remote) extractVIN = Ok vehicle ->
  filter isFetch (events (pollOnce flags remote s)) = map CallFetch allGauges /\
  (forall g x,
      fresh remote vehicle g = Some x ->
      gaugeValue g (gauges (pollOnce flags remote s)) = Some x /\
      In (GaugeSet g x) (events (pollOnce flags remote s))) /\
  (forall g,
      ~ fetchFails remote vehicle g ->
      (g = evStatus -> ~ unknownStatus remote vehicle) ->
      exists x, fresh remote vehicle g = Some x).
Proof.
  intros E R.
  assert (Hin : forall g, freshIn flags remote g = fresh remote vehicle g)
    by (intros g; unfold freshIn; now rewrite E, R).
  split; [|split].
  - destruct (pollOnce_polling flags remote s E R) as (body & -> & Hf & _).
    cbn [events]. rewrite !filter_app, Hf. reflexivity.
  - intros g x Hfresh. split.
    + now rewrite pollOnce_gaugeValue, Hin, Hfresh.
    + apply pollOnce_GaugeSet. now rewrite Hin.
  - intros g Hok Hknown.
    destruct (fresh remote vehicle g) as [x|] eqn:Hfresh; [now exists x|].
    apply fresh_None in Hfresh. destruct Hfresh as [Hfail|[-> Hunknown]].
    + contradiction.
    + now elim Hknown.
Qed.

Lemma fetches_are_isolated_witness :
  Login (withoutRange remoteHealthy) = None /\
  ensureVehicleEx (vin flagsXYZ) (Vehicles (withoutRange remoteHealthy))
                  extractVIN = Ok xyz789 /\
  filter isFetch (events (pollOnce flagsXYZ (withoutRange remoteHealthy)
                                   emptySink))
  = map CallFetch allGauges /\
  gaugeValue evStatus
    (gauges (pollOnce flagsXYZ (withoutRange remoteHealthy) emptySink))
  = Some 3%float.
Proof.
  destruct (fetches_are_isolated (H := asciiFolding) flagsXYZ
              (withoutRange remoteHealthy) emptySink (vehicle := xyz789)
              eq_refl eq_refl)
    as (Hfetch & Hfresh & _).
  split; [reflexivity|]. split; [reflexivity|]. split; [exact Hfetch|].
  exact (proj1 (Hfresh evStatus 3%float eq_refl)).
Defined.

(** C6 as stated does not hold: exactly one fetch fails, the one of the
    range, and the status fetch answers [G]; only three gauges are updated
    in the iteration. *)
Lemma one_failure_three_updates :
  (forall g,
      fetchFails (withoutRange (withStatus "G" remoteHealthy)) xyz789 g <->
      g = evRange) /\
  gauges (pollOnce flagsXYZ (withoutRange (withStatus "G" remoteHealthy))
                   emptySink)
  = mkSink None (Some 80%float) None (Some 1700000000%float)
           (Some 12345.5%float).
Proof.
  split; [|reflexivity].
  intros g. split.
  - destruct g; simpl; trivial; intros [e He]; discriminate.
  - intros ->. simpl. eexists. reflexivity.
Qed.

(** Scenarios 4 and 5 of the specification. *)
Example status_C_published_as_3 :
  gaugeValue evStatus (gauges (pollOnce flagsXYZ remoteHealthy emptySink))
  = Some 3%float.
Proof. reflexivity. Qed.

Example range_fails_others_published :
  pollOnce flagsXYZ (withoutRange remoteHealthy)
           (mkSink (Some 250%float) None None None None)
  = mkRun [CallNewIdentity;
           CallLogin "driver@example.com" "refresh" "en" "hyundai";
           CallNewAPI; CallVehicles; CallNewProvider xyz789;
           CallFetch evRange; LogPrint "Range Error: range unavailable";
           CallFetch evSoc; GaugeSet evSoc 80%float;
           CallFetch evStatus; GaugeSet evStatus 3%float;
           CallFetch evFinishTime; GaugeSet evFinishTime 1700000000%float;
           CallFetch evOdometer; GaugeSet evOdometer 12345.5%float;
           Sleep 60000000000]
          (mkSink (Some 250%float) (Some 80%float) (Some 3%float)
                  (Some 1700000000%float) (Some 12345.5%float))
          (Done tt).
Proof. reflexivity. Qed.

(** ** The cadence of the loop *)

(** Every iteration of the loop, however it ends, is a stretch of events
    without any sleep, opened by the creation of a new identity and closed
    by one [time.Sleep] of the poll duration, the same in every iteration;
    for an interval between 0 and 9223372036 that duration is the interval
    of the command line in seconds. *)
Lemma pollLoop_sleeps_between_iterations `{CaseFolding} (flags : Flags)
      (remotes : list Remote) (s : Sink) :
  (exists bodies,
      events (pollLoop flags remotes s) =
      flat_map (fun body => body ++ [Sleep (pollDuration flags)])%list bodies /\
      List.length bodies = List.length remotes /\
      Forall (fun body => filter isSleep body = [] /\
                          hd_error body = Some CallNewIdentity) bodies) /\
  (0 <= pollInterval flags <= 9223372036 ->
   pollDuration flags = pollInterval flags * 1000000000).
Proof.
  split; [apply pollLoop_bodies | apply pollDuration_seconds].
Qed.

Example three_iterations_three_sleeps :
  filter isSleep
    (events (pollLoop flagsXYZ
               [withoutLogin remoteHealthy; withoutVehicles remoteHealthy;
                remoteHealthy] emptySink))
  = [Sleep 60000000000; Sleep 60000000000; Sleep 60000000000].
Proof. reflexivity. Qed.

Lemma pollLoop_sleeps `{CaseFolding} (flags : Flags) (remotes : list Remote) :
  forall s,
    filter isSleep (events (pollLoop flags remotes s))
    = repeat (Sleep (pollDuration flags)) (List.length remotes).
Proof.
  induction remotes as [|remote later IH]; intros s; [reflexivity|].
  rewrite pollLoop_cons. cbn [events].
  destruct (pollOnce_body flags remote s) as (body & -> & Hsleep & _).
  rewrite !filter_app, Hsleep, IH. reflexivity.
Qed.

(** C7, at an interval the code accepts and mishandles: with
    [-poll-interval 9223372037] the 64-bit product of the interval and
    [time.Second] wraps around to a negative duration, and every iteration,
    however it ends, passes that negative duration to [time.Sleep], which
    then returns at once: the loop polls without any pause instead of
    waiting for the configured interval. *)
Theorem pollLoop_interval_overflow `{CaseFolding} (remotes : list Remote)
        (s : Sink) :
  pollInterval (flag_Parse [ArgPollInterval 9223372037]) = 9223372037 /\
  pollDuration (flag_Parse [ArgPollInterval 9223372037])
  = -9223372036709551616 /\
  pollDuration (flag_Parse [ArgPollInterval 9223372037]) < 0 /\
  filter isSleep
    (events (pollLoop (flag_Parse [ArgPollInterval 9223372037]) remotes s))
  = repeat (Sleep (-9223372036709551616)) (List.length remotes).
Proof.
  split; [reflexivity|]. split; [reflexivity|]. split; [reflexivity|].
  now rewrite pollLoop_sleeps.
Qed.

(** C8: an iteration whose login fails, or whose resolution fails, logs
    the error, sleeps and is over: no fetch is made and the gauges are
    untouched.  No iteration leaves the process, so the loop goes through
    every iteration whatever failed before; and every iteration starts with
    a new identity and a login and, when the login succeeds, asks for the
    vehicle list again, whatever the earlier iterations did. *)
Theorem pollLoop_survives_failures `{CaseFolding} (flags : Flags) :
  (forall remote s err,
      Login remote = Some err ->
      pollOnce flags remote s =
      mkRun [CallNewIdentity;
             CallLogin (username flags) (token flags) "en" "hyundai";
             LogPrint (Error err); Sleep (pollDuration flags)] s (Done tt)) /\
  (forall remote s err,
      Login remote = None ->
      ensureVehicleEx (vin flags) (Vehicles remote) extractVIN = Err err ->
      pollOnce flags remote s =
      mkRun [CallNewIdentity;
             CallLogin (username flags) (token flags) "en" "hyundai";
             CallNewAPI; CallVehicles;
             LogPrint (Error err); Sleep (pollDuration flags)] s (Done tt)) /\
  (forall remotes s,
      ending (pollLoop flags remotes s) = Done tt /\
      filter isSessionCall (events (pollLoop flags remotes s)) =
      flat_map (sessionCalls flags) remotes).
Proof.
  split; [|split].
  - intros remote s err E. now apply pollOnce_login_failed.
  - intros remote s err E R. now apply pollOnce_not_resolved.
  - intros remotes s. split.
    + apply pollLoop_continues.
    + apply pollLoop_sessionCalls.
Qed.

Lemma pollLoop_survives_failures_witness :
  Login (withoutLogin remoteHealthy) = Some (ErrRemote "login failed") /\
  pollOnce flagsXYZ (withoutLogin remoteHealthy) emptySink
  = mkRun [CallNewIdentity;
           CallLogin "driver@example.com" "refresh" "en" "hyundai";
           LogPrint "login failed"; Sleep 60000000000] emptySink (Done tt) /\
  Login (withoutVehicles remoteHealthy) = None /\
  ensureVehicleEx (vin flagsXYZ) (Vehicles (withoutVehicles remoteHealthy))
                  extractVIN
  = Err (ErrCannotGetVehicles (ErrRemote "list failed")) /\
  pollOnce flagsXYZ (withoutVehicles remoteHealthy) emptySink
  = mkRun [CallNewIdentity;
           CallLogin "driver@example.com" "refresh" "en" "hyundai";
           CallNewAPI; CallVehicles;
           LogPrint "cannot get vehicles: list failed"; Sleep 60000000000]
          emptySink (Done tt).
Proof.
  destruct (pollLoop_survives_failures flagsXYZ) as (Hlogin & Hresolve & _).
  split; [reflexivity|]. split.
  - exact (Hlogin (withoutLogin remoteHealthy) emptySink
                  (ErrRemote "login failed") eq_refl).
  - split; [reflexivity|]. split; [reflexivity|].
    exact (Hresolve (withoutVehicles remoteHealthy) emptySink
                    (ErrCannotGetVehicles (ErrRemote "list failed"))
                    eq_refl eq_refl).
Defined.

(** Two healthy iterations in a row: the second one logs in and lists the
    vehicles again. *)
Example sessions_are_rebuilt :
  filter isSessionCall
    (events (pollLoop flagsXYZ [remoteHealthy; remoteHealthy] emptySink))
  = [CallNewIdentity; CallLogin "driver@example.com" "refresh" "en" "hyundai";
     CallNewAPI; CallVehicles;
     CallNewIdentity; CallLogin "driver@example.com" "refresh" "en" "hyundai";
     CallNewAPI; CallVehicles].
Proof. reflexivity. Qed.

(** * Further properties of the resolver *)

(** X1: whatever the extraction callback does, a vehicle the resolver
    returns is one of the listed vehicles, and with a non-empty filter its
    extracted identifier equals the filter up to case. *)
Theorem ensureVehicleEx_sound `{CaseFolding} {T : Type}
        (extract : T -> string * option error) (filter : string)
        (listed : result (list T)) (v : T) :
  ensureVehicleEx filter listed extract = Ok v ->
  exists vehicles,
    listed = Ok vehicles /\ In v vehicles /\
    (filter <> "" ->
     exists s, extract v = (s, None) /\ ToUpper s = ToUpper filter).
Proof.
  destruct listed as [vehicles|err]; [|discriminate].
  intros Hres. exists vehicles. split; [reflexivity|].
  destruct (string_dec filter "") as [->|Hne].
  - rewrite ensureVehicleEx_no_filter in Hres.
    destruct vehicles as [|a [|b rest]]; try discriminate.
    injection Hres as ->. split; [now left | intros Hn; now elim Hn].
  - rewrite ensureVehicleEx_filter in Hres by assumption.
    apply returned_Ok, scanVehicles_Ok in Hres.
    destruct Hres as (before & after & s & -> & Hv & Hu & _). split.
    + apply in_or_app. right. now left.
    + intros _. now exists s.
Qed.

Lemma ensureVehicleEx_sound_witness :
  ensureVehicleEx "xyz789" (Ok [abc123; unnamed; xyz789]) extractVIN
  = Ok xyz789 /\
  exists vehicles,
    Ok [abc123; unnamed; xyz789] = Ok vehicles /\ In xyz789 vehicles /\
    ("xyz789" <> "" ->
     exists s, extractVIN xyz789 = (s, None) /\ ToUpper s = ToUpper "xyz789").
Proof.
  split; [reflexivity|].
  exact (ensureVehicleEx_sound (H := asciiFolding) extractVIN "xyz789"
           (Ok [abc123; unnamed; xyz789]) eq_refl).
Defined.

(** X2: with an empty filter the errors of the extraction callback have no
    say in the outcome: the resolver returns the vehicle exactly when the
    list holds that single vehicle, even if its identifier cannot be
    extracted, and otherwise fails with the [cannot find vehicle] error
    listing, per vehicle and in list order, the string its extraction
    handed back. *)
Theorem ensureVehicleEx_no_filter_iff `{CaseFolding} {T : Type}
        (extract : T -> string * option error) (vehicles : list T) :
  (forall v,
      ensureVehicleEx "" (Ok vehicles) extract = Ok v <-> vehicles = [v]) /\
  (forall e,
      ensureVehicleEx "" (Ok vehicles) extract = Err e <->
      List.length vehicles <> 1%nat /\
      e = ErrCannotFindVehicle (map (listedAs extract) vehicles)).
Proof.
  rewrite ensureVehicleEx_no_filter, gotIdentifiers_listedAs.
  destruct vehicles as [|a [|b rest]]; split; intros x; split;
    simpl; try discriminate.
  - intros [= <-]. split; [discriminate | reflexivity].
  - now intros [_ ->].
  - now intros [= ->].
  - now intros [= ->].
  - intros [Hlen _]. now elim Hlen.
  - intros [= <-]. split; [discriminate | reflexivity].
  - now intros [_ ->].
Qed.

Example lone_vehicle_without_identifier :
  ensureVehicleEx "" (Ok [unnamed]) extractChecked = Ok unnamed /\
  ensureVehicleEx "tm" (Ok [unnamed]) extractChecked
  = Err (ErrRemote "vehicle without VIN").
Proof. split; reflexivity. Qed.

(** X3: with a non-empty filter, and whatever the extraction callback
    does, the resolver fails in exactly two ways: with the extraction error
    of the first entity whose identifier cannot be extracted, when every
    entity before it was extracted and did not match; or, when every entity
    was extracted and none matched, with the [cannot find vehicle] error
    listing all identifiers. *)
Theorem ensureVehicleEx_filter_fails_iff `{CaseFolding} {T : Type}
        (extract : T -> string * option error) (filter : string)
        (vehicles : list T) (e : error) :
  filter <> "" ->
  ensureVehicleEx filter (Ok vehicles) extract = Err e <->
  (exists before w after,
      vehicles = (before ++ w :: after)%list /\ snd (extract w) = Some e /\
      forall u, In u before -> passedOver extract (ToUpper filter) u) \/
  ((forall u, In u vehicles -> passedOver extract (ToUpper filter) u) /\
   e = ErrCannotFindVehicle (map (listedAs extract) vehicles)).
Proof.
  intros Hne.
  rewrite ensureVehicleEx_filter, gotIdentifiers_listedAs by assumption.
  rewrite <- scanVehicles_Err, <- scanVehicles_None.
  destruct (scanVehicles (ToUpper filter) extract vehicles) as [[v|e']|].
  - split; [discriminate|]. intros [E|[E _]]; discriminate.
  - split.
    + intros [= ->]. now left.
    + intros [[= ->]|[E _]]; [reflexivity | discriminate].
  - split.
    + intros [= <-]. right. now split.
    + intros [E|[_ ->]]; [discriminate | reflexivity].
Qed.

Lemma ensureVehicleEx_filter_fails_iff_witness :
  "nope" <> "" /\
  (ensureVehicleEx "nope" (Ok [abc123; unnamed; xyz789]) extractChecked
   = Err (ErrRemote "vehicle without VIN") <->
   (exists before w after,
       [abc123; unnamed; xyz789] = (before ++ w :: after)%list /\
       snd (extractChecked w) = Some (ErrRemote "vehicle without VIN") /\
       forall u, In u before -> passedOver extractChecked (ToUpper "nope") u) \/
   ((forall u, In u [abc123; unnamed; xyz789] ->
               passedOver extractChecked (ToUpper "nope") u) /\
    ErrRemote "vehicle without VIN"
    = ErrCannotFindVehicle
        (map (listedAs extractChecked) [abc123; unnamed; xyz789]))).
Proof.
  assert (Hne : "nope" <> "") by discriminate.
  split; [exact Hne|].
  exact (ensureVehicleEx_filter_fails_iff (H := asciiFolding) extractChecked
           [abc123; unnamed; xyz789] (ErrRemote "vehicle without VIN") Hne).
Defined.

(** X4: the resolver sees the filter only through its upper case: two
    filters equal up to case give the same answer, failures included, on
    every list and with every extraction callback. *)
Theorem ensureVehicleEx_filter_case `{CaseFolding} {T : Type}
        (extract : T -> string * option error) (filter filter' : string)
        (listed : result (list T)) :
  ToUpper filter = ToUpper filter' ->
  ensureVehicleEx filter listed extract
  = ensureVehicleEx filter' listed extract.
Proof.
  intros Hcase. unfold ensureVehicleEx. now rewrite Hcase.
Qed.

Lemma ensureVehicleEx_filter_case_witness :
  ToUpper "Xyz789" = ToUpper "xYZ789" /\
  ensureVehicleEx "Xyz789" (Ok [abc123; xyz789]) extractVIN
  = ensureVehicleEx "xYZ789" (Ok [abc123; xyz789]) extractVIN.
Proof.
  split; [reflexivity|].
  exact (ensureVehicleEx_filter_case (H := asciiFolding) extractVIN
           "Xyz789" "xYZ789" (Ok [abc123; xyz789]) eq_refl).
Defined.

(** * Further properties of the goroutine *)

Lemma pollGauge_step (remote : Remote) (vehicle : Vehicle) (g : gauge)
      (s : Sink) :
  pollGauge remote vehicle g s =
  mkRun (fetchStep remote vehicle g) (storeFresh remote vehicle s g) (Done tt).
Proof.
  unfold fetchStep, storeFresh, logLine, fetchError.
  destruct g; unfold pollGauge, fresh.
  - unfold pollRange, bind. simpl.
    destruct (Range remote vehicle) as [x|e]; reflexivity.
  - unfold pollSoc, bind. simpl.
    destruct (Soc remote vehicle) as [x|e]; reflexivity.
  - unfold pollStatus, bind. simpl.
    destruct (Status remote vehicle) as [code|e]; [|reflexivity].
    rewrite switchStatus_statusNumber.
    destruct (statusNumber code); reflexivity.
  - unfold pollFinishTime, bind. simpl.
    destruct (FinishTime remote vehicle) as [x|e]; reflexivity.
  - unfold pollOdometer, bind. simpl.
    destruct (Odometer remote vehicle) as [x|e]; reflexivity.
Qed.

Lemma pollGauge_step_then (remote : Remote) (vehicle : Vehicle) (g : gauge)
      (k : M unit) (s : Sink) :
  (pollGauge remote vehicle g ;; k) s =
  mkRun (fetchStep remote vehicle g ++
         events (k (storeFresh remote vehicle s g)))%list
        (gauges (k (storeFresh remote vehicle s g)))
        (ending (k (storeFresh remote vehicle s g))).
Proof.
  rewrite (bind_Done (pollGauge remote vehicle g) (fun _ => k) s (a := tt));
    now rewrite pollGauge_step.
Qed.

(** The run of an iteration that reaches the provider, step by step. *)
Lemma pollOnce_steps `{CaseFolding} (flags : Flags)
      (remote : Remote) (s : Sink) (vehicle : Vehicle) :
  Login remote = None ->
  ensureVehicleEx (vin flags) (Vehicles remote) extractVIN = Ok vehicle ->
  pollOnce flags remote s =
  mkRun (sessionOpened flags vehicle ++
         flat_map (fetchStep remote vehicle) allGauges ++
         [Sleep (pollDuration flags)])%list
        (polled remote vehicle s) (Done tt).
Proof.
  intros E R.
  set (sleep := time_Sleep (pollDuration flags)).
  set (k5 := pollGauge remote vehicle evOdometer ;; sleep).
  set (k4 := pollGauge remote vehicle evFinishTime ;; k5).
  set (k3 := pollGauge remote vehicle evStatus ;; k4).
  set (k2 := pollGauge remote vehicle evSoc ;; k3).
  set (k1 := pollGauge remote vehicle evRange ;; k2).
  assert (Hrun : pollOnce flags remote s =
                 mkRun (sessionOpened flags vehicle ++ events (k1 s))%list
                       (gauges (k1 s)) (ending (k1 s))).
  { unfold pollOnce, bind at 1 2 3 4 5 6. simpl. rewrite E. simpl.
    rewrite R. simpl. reflexivity. }
  rewrite Hrun. unfold k1, k2, k3, k4, k5.
  repeat (rewrite pollGauge_step_then; cbn [events gauges ending]).
  unfold sleep, time_Sleep, call, polled, allGauges.
  cbn [events gauges ending flat_map fold_left].
  rewrite app_nil_r, <- !app_assoc. reflexivity.
Qed.

(** X5: an iteration that reaches the provider does exactly this: it opens
    the session, then for each of the five gauges, in order, calls the fetch
    and at once either sets that gauge to the fresh reading or logs one
    line, and finally sleeps.  Nothing is published before it is fetched
    and every reading that is not published is logged. *)
Theorem pollOnce_polling_trace `{CaseFolding} (flags : Flags)
        (remote : Remote) (s : Sink) (vehicle : Vehicle) :
  Login remote = None ->
  ensureVehicleEx (vin flags) (Vehicles remote) extractVIN = Ok vehicle ->
  pollOnce flags remote s =
  mkRun (sessionOpened flags vehicle ++
         flat_map (fetchStep remote vehicle) allGauges ++
         [Sleep (pollDuration flags)])%list
        (polled remote vehicle s) (Done tt).
Proof.
  intros E R. now apply pollOnce_steps.
Qed.

Lemma pollOnce_polling_trace_witness :
  Login (withStatus "G" remoteHealthy) = None /\
  ensureVehicleEx (vin flagsXYZ) (Vehicles (withStatus "G" remoteHealthy))
                  extractVIN = Ok xyz789 /\
  pollOnce flagsXYZ (withStatus "G" remoteHealthy) emptySink
  = mkRun [CallNewIdentity;
           CallLogin "driver@example.com" "refresh" "en" "hyundai";
           CallNewAPI; CallVehicles; CallNewProvider xyz789;
           CallFetch evRange; GaugeSet evRange 320%float;
           CallFetch evSoc; GaugeSet evSoc 80%float;
           CallFetch evStatus; LogPrint "Unknown status: G";
           CallFetch evFinishTime; GaugeSet evFinishTime 1700000000%float;
           CallFetch evOdometer; GaugeSet evOdometer 12345.5%float;
           Sleep 60000000000]
          (mkSink (Some 320%float) (Some 80%float) None
                  (Some 1700000000%float) (Some 12345.5%float))
          (Done tt).
Proof.
  split; [reflexivity|]. split; [reflexivity|].
  exact (pollOnce_polling_trace (H := asciiFolding) flagsXYZ
           (withStatus "G" remoteHealthy) emptySink (vehicle := xyz789)
           eq_refl eq_refl).
Defined.

Lemma fetchError_no_fresh (remote : Remote) (vehicle : Vehicle) (g : gauge)
      (e : error) :
  fetchError remote vehicle g = Some e -> fresh remote vehicle g = None.
Proof.
  destruct g; unfold fetchError, fresh;
    [destruct (Range remote vehicle) | destruct (Soc remote vehicle)
    | destruct (Status remote vehicle) | destruct (FinishTime remote vehicle)
    | destruct (Odometer remote vehicle)]; intros E;
    (discriminate || reflexivity).
Qed.

Lemma In_allGauges (g : gauge) : In g allGauges.
Proof. destruct g; simpl; tauto. Qed.

(** X6: a fetch that fails is never silent: the iteration logs the label of
    the metric followed by the text of the error, calls no [Gauge.Set] on
    that gauge and leaves its value as it was. *)
Theorem failed_fetch_is_logged `{CaseFolding} (flags : Flags)
        (remote : Remote) (s : Sink) (vehicle : Vehicle) (g : gauge)
        (e : error) :
  Login remote = None ->
  ensureVehicleEx (vin flags) (Vehicles remote) extractVIN = Ok vehicle ->
  fetchError remote vehicle g = Some e ->
  In (LogPrint (fetchLabel g ++ Error e)) (events (pollOnce flags remote s)) /\
  (forall x, ~ In (GaugeSet g x) (events (pollOnce flags remote s))) /\
  gaugeValue g (gauges (pollOnce flags remote s)) = gaugeValue g s.
Proof.
  intros E R Hfail.
  assert (Hfresh : freshIn flags remote g = None).
  { unfold freshIn. rewrite E, R. exact (fetchError_no_fresh _ _ _ Hfail). }
  split; [|split].
  - rewrite (pollOnce_steps flags remote s E R). cbn [events].
    apply in_or_app. right. apply in_or_app. left.
    apply in_flat_map. exists g. split; [apply In_allGauges|].
    unfold fetchStep, logLine.
    rewrite (fetchError_no_fresh _ _ _ Hfail), Hfail. right. now left.
  - intros x Hin. apply pollOnce_GaugeSet in Hin. congruence.
  - now rewrite pollOnce_gaugeValue, Hfresh.
Qed.

Lemma failed_fetch_is_logged_witness :
  Login (withoutRange remoteHealthy) = None /\
  ensureVehicleEx (vin flagsXYZ) (Vehicles (withoutRange remoteHealthy))
                  extractVIN = Ok xyz789 /\
  fetchError (withoutRange remoteHealthy) xyz789 evRange
  = Some (ErrRemote "range unavailable") /\
  In (LogPrint "Range Error: range unavailable")
     (events (pollOnce flagsXYZ (withoutRange remoteHealthy) emptySink)).
Proof.
  split; [reflexivity|]. split; [reflexivity|]. split; [reflexivity|].
  exact (proj1 (failed_fetch_is_logged (H := asciiFolding) flagsXYZ
                  (withoutRange remoteHealthy) emptySink (vehicle := xyz789)
                  evRange (e := ErrRemote "range unavailable")
                  eq_refl eq_refl eq_refl)).
Defined.

Lemma lookupStatus_In (table : list (string * float)) (code : string)
      (x : float) :
  lookupStatus table code = Some x -> In x (map snd table).
Proof.
  induction table as [|[known number] rest IH]; simpl; [discriminate|].
  destruct (code =? known)%string.
  - intros [= ->]. now left.
  - intros Hrest. right. now apply IH.
Qed.

Lemma pollLoop_In `{CaseFolding} (flags : Flags) (e : event)
      (remotes : list Remote) :
  forall s,
    In e (events (pollLoop flags remotes s)) ->
    exists remote s', In remote remotes /\
                      In e (events (pollOnce flags remote s')).
Proof.
  induction remotes as [|remote later IH]; intros s Hin.
  - destruct Hin.
  - rewrite pollLoop_cons in Hin. cbn [events] in Hin.
    apply in_app_or in Hin. destruct Hin as [Hin|Hin].
    + exists remote, s. split; [now left | exact Hin].
    + destruct (IH _ Hin) as (r & s' & Hr & He).
      exists r, s'. split; [now right | exact He].
Qed.

Lemma freshIn_status_in_table `{CaseFolding} (flags : Flags)
      (remote : Remote) (x : float) :
  freshIn flags remote evStatus = Some x -> In x (map snd statusTable).
Proof.
  unfold freshIn, fresh.
  destruct (Login remote); [discriminate|].
  destruct (ensureVehicleEx (vin flags) (Vehicles remote) extractVIN)
    as [vehicle|err]; [|discriminate].
  destruct (Status remote vehicle) as [code|err]; [|discriminate].
  apply lookupStatus_In.
Qed.

(** X7: whatever the remote side answers, over any number of iterations the
    status gauge is only ever set to one of the seven numbers of the table,
    0 to 6; a status gauge that is unset or holds such a number stays so. *)
Theorem status_gauge_stays_in_table `{CaseFolding} (flags : Flags)
        (remotes : list Remote) (s : Sink) :
  map snd statusTable
  = [0%float; 1%float; 2%float; 3%float; 4%float; 5%float; 6%float] /\
  (forall x,
      In (GaugeSet evStatus x) (events (pollLoop flags remotes s)) ->
      In x (map snd statusTable)) /\
  (statusInTable s -> statusInTable (gauges (pollLoop flags remotes s))).
Proof.
  split; [reflexivity|]. split.
  - intros x Hin. apply pollLoop_In in Hin.
    destruct Hin as (remote & s' & _ & Hin).
    apply pollOnce_GaugeSet in Hin.
    exact (freshIn_status_in_table flags remote Hin).
  - revert s. induction remotes as [|remote later IH]; intros s Hs.
    + exact Hs.
    + rewrite pollLoop_cons. cbn [gauges]. apply IH.
      unfold statusInTable.
      change (ev_status (gauges (pollOnce flags remote s)))
        with (gaugeValue evStatus (gauges (pollOnce flags remote s))).
      rewrite pollOnce_gaugeValue.
      destruct (freshIn flags remote evStatus) as [x|] eqn:Hfresh.
      * exact (freshIn_status_in_table flags remote Hfresh).
      * exact Hs.
Qed.

Lemma status_gauge_stays_in_table_witness :
  statusInTable emptySink /\
  statusInTable
    (gauges (pollLoop flagsXYZ
               [withStatus "G" remoteHealthy; withStatus "F" remoteHealthy;
                withoutLogin remoteHealthy] emptySink)).
Proof.
  split; [exact I|].
  exact (proj2 (proj2 (status_gauge_stays_in_table (H := asciiFolding)
                         flagsXYZ
                         [withStatus "G" remoteHealthy;
                          withStatus "F" remoteHealthy;
                          withoutLogin remoteHealthy] emptySink)) I).
Defined.

(** X8: the goroutine never reads the gauges: the calls it makes, the
    values it sets, the lines it logs and its sleeps are the same whatever
    the gauges held before. *)
Theorem pollLoop_events_ignore_gauges `{CaseFolding} (flags : Flags)
        (remotes : list Remote) (s s' : Sink) :
  events (pollLoop flags remotes s) = events (pollLoop flags remotes s').
Proof.
  revert s s'. induction remotes as [|remote later IH]; intros s s'.
  - reflexivity.
  - rewrite !pollLoop_cons. cbn [events].
    rewrite (IH (gauges (pollOnce flags remote s))
                (gauges (pollOnce flags remote s'))).
    f_equal.
    destruct (pollOnce_cases flags remote)
      as [[err E]|[[E [err R]]|[E [vehicle R]]]].
    + now rewrite !(pollOnce_login_failed flags remote _ E).
    + now rewrite !(pollOnce_not_resolved flags remote _ E R).
    + now rewrite !(pollOnce_steps flags remote _ E R).
Qed.

Lemma Sink_ext (s s' : Sink) :
  (forall g, gaugeValue g s = gaugeValue g s') -> s = s'.
Proof.
  intros Hall. destruct s, s'.
  pose proof (Hall evRange) as H1. pose proof (Hall evSoc) as H2.
  pose proof (Hall evStatus) as H3. pose proof (Hall evFinishTime) as H4.
  pose proof (Hall evOdometer) as H5. simpl in *. congruence.
Qed.

(** X9: polling is idempotent on the gauges: two iterations in a row with
    the same answers of the remote side leave the gauges exactly as the
    first one did. *)
Theorem polling_twice_is_polling_once `{CaseFolding} (flags : Flags)
        (remote : Remote) (s : Sink) :
  gauges (pollLoop flags [remote; remote] s)
  = gauges (pollLoop flags [remote] s).
Proof.
  rewrite !pollLoop_cons. cbn [gauges pollLoop ret].
  apply Sink_ext. intros g. rewrite !pollOnce_gaugeValue.
  destruct (freshIn flags remote g); reflexivity.
Qed.

(** X10: an iteration in which all five gauges get a fresh reading
    determines the gauges completely: nothing of their earlier values is
    left. *)
Theorem full_poll_overwrites_everything `{CaseFolding} (flags : Flags)
        (remote : Remote) (s s' : Sink) :
  (forall g, freshIn flags remote g <> None) ->
  gauges (pollOnce flags remote s) = gauges (pollOnce flags remote s').
Proof.
  intros Hall. apply Sink_ext. intros g. rewrite !pollOnce_gaugeValue.
  destruct (freshIn flags remote g) eqn:E; [reflexivity | now elim (Hall g)].
Qed.

Lemma full_poll_overwrites_everything_witness :
  (forall g, freshIn flagsXYZ remoteHealthy g <> None) /\
  gauges (pollOnce flagsXYZ remoteHealthy emptySink)
  = gauges (pollOnce flagsXYZ remoteHealthy
                     (mkSink (Some 1%float) (Some 2%float) (Some 6%float)
                             (Some 4%float) (Some 5%float))).
Proof.
  assert (Hall : forall g, freshIn flagsXYZ remoteHealthy g <> None)
    by (intros g; destruct g; discriminate).
  split; [exact Hall|].
  exact (full_poll_overwrites_everything (H := asciiFolding) flagsXYZ
           remoteHealthy emptySink _ Hall).
Defined.

Lemma pollOnce_no_Printf `{CaseFolding} (flags : Flags) (remote : Remote)
      (s : Sink) :
  filter isPrintf (events (pollOnce flags remote s)) = [].
Proof.
  destruct (pollOnce_cases flags remote)
    as [[err E]|[[E [err R]]|[E [vehicle R]]]].
  - now rewrite (pollOnce_login_failed flags remote s E).
  - now rewrite (pollOnce_not_resolved flags remote s E R).
  - rewrite (pollOnce_steps flags remote s E R). cbn [events].
    unfold allGauges, fetchStep. cbn [flat_map].
    destruct (fresh remote vehicle evRange), (fresh remote vehicle evSoc),
             (fresh remote vehicle evStatus),
             (fresh remote vehicle evFinishTime),
             (fresh remote vehicle evOdometer); reflexivity.
Qed.

Lemma pollLoop_no_Printf `{CaseFolding} (flags : Flags)
      (remotes : list Remote) :
  forall s, filter isPrintf (events (pollLoop flags remotes s)) = [].
Proof.
  induction remotes as [|remote later IH]; intros s; [reflexivity|].
  rewrite pollLoop_cons. cbn [events].
  now rewrite filter_app, pollOnce_no_Printf, IH.
Qed.

(** The gauges of a run are what its [Gauge.Set] calls stored. *)
Lemma pollLoop_gaugesAfter `{CaseFolding} (flags : Flags)
      (remotes : list Remote) :
  forall s,
    gaugesAfter (events (pollLoop flags remotes s)) s
    = gauges (pollLoop flags remotes s).
Proof.
  induction remotes as [|remote later IH]; intros s; [reflexivity|].
  rewrite pollLoop_cons. cbn [events gauges].
  unfold gaugesAfter. rewrite fold_left_app.
  fold (gaugesAfter (events (pollOnce flags remote s)) s).
  assert (Honce : gaugesAfter (events (pollOnce flags remote s)) s
                  = gauges (pollOnce flags remote s)).
  { destruct (pollOnce_cases flags remote)
      as [[err E]|[[E [err R]]|[E [vehicle R]]]].
    - now rewrite (pollOnce_login_failed flags remote s E).
    - now rewrite (pollOnce_not_resolved flags remote s E R).
    - rewrite (pollOnce_steps flags remote s E R). cbn [events gauges].
      unfold polled, allGauges, fetchStep, storeFresh, gaugesAfter.
      cbn [flat_map fold_left app sessionOpened].
      destruct (fresh remote vehicle evRange), (fresh remote vehicle evSoc),
               (fresh remote vehicle evStatus),
               (fresh remote vehicle evFinishTime),
               (fresh remote vehicle evOdometer); reflexivity. }
  rewrite Honce. apply IH.
Qed.

Lemma filter_firstn_nil {A : Type} (p : A -> bool) (l : list A) :
  filter p l = [] -> forall n, filter p (firstn n l) = [].
Proof.
  induction l as [|x rest IH]; intros Hl n.
  - now destruct n.
  - destruct n as [|n]; [reflexivity|]. simpl in *.
    destruct (p x); [discriminate | now apply IH].
Qed.

(** X11: without [-version], [main] prints nothing on standard output.  As
    long as [http.ListenAndServe] does not return it is the polling loop
    started on unset gauges, which never leaves the process; when
    [http.ListenAndServe] returns its error, the goroutine stops where it
    is, the error is logged and the process leaves with code 1, before any
    poll if the server fails at once. *)
Theorem main_without_version `{CaseFolding} (buildInfo : string)
        (args : list flagArg) (remotes : list Remote) :
  showVersion (flag_Parse args) = false ->
  main buildInfo args ServesForever remotes
  = pollLoop (flag_Parse args) remotes emptySink /\
  ending (main buildInfo args ServesForever remotes) = Done tt /\
  (forall after err,
      events (main buildInfo args (ServeFails after err) remotes)
      = (firstn after (events (pollLoop (flag_Parse args) remotes emptySink))
         ++ [LogPrint (Error err)])%list /\
      ending (main buildInfo args (ServeFails after err) remotes) = Exit 1) /\
  (forall err,
      main buildInfo args (ServeFails 0 err) remotes
      = mkRun [LogPrint (Error err)] emptySink (Exit 1)) /\
  (forall listen,
      filter isPrintf (events (main buildInfo args listen remotes)) = []).
Proof.
  intros Hversion. unfold main. rewrite Hversion. cbn zeta.
  split; [reflexivity|]. split; [apply pollLoop_continues|].
  split; [intros after err; split; reflexivity|].
  split; [intros err; reflexivity|].
  intros [|after err].
  - apply pollLoop_no_Printf.
  - cbn [events]. rewrite filter_app.
    rewrite (filter_firstn_nil isPrintf _ (pollLoop_no_Printf _ _ _)).
    reflexivity.
Qed.

Lemma main_without_version_witness :
  showVersion (flag_Parse [ArgVin "xyz789"; ArgPollInterval 30]) = false /\
  main "ioniq_exporter, version 0.1.0" [ArgVin "xyz789"; ArgPollInterval 30]
       (ServeFails 0 (ErrRemote "listen tcp :9333: bind failed"))
       [withoutLogin remoteHealthy; remoteHealthy]
  = mkRun [LogPrint "listen tcp :9333: bind failed"] emptySink (Exit 1).
Proof.
  split; [reflexivity|].
  exact (proj1 (proj2 (proj2 (proj2
           (main_without_version (H := asciiFolding)
              "ioniq_exporter, version 0.1.0"
              [ArgVin "xyz789"; ArgPollInterval 30]
              [withoutLogin remoteHealthy; remoteHealthy] eq_refl))))
           (ErrRemote "listen tcp :9333: bind failed")).
Defined.

(** The server fails while the first iteration is under way: the range is
    published, the rest is not. *)
Example main_stopped_mid_iteration :
  main "ioniq_exporter, version 0.1.0" [ArgVin "xyz789"]
       (ServeFails 7 (ErrRemote "listener closed")) [remoteHealthy]
  = mkRun [CallNewIdentity;
           CallLogin "user@example.com" "secret1234" "en" "hyundai";
           CallNewAPI; CallVehicles; CallNewProvider xyz789;
           CallFetch evRange; GaugeSet evRange 320%float;
           LogPrint "listener closed"]
          (mkSink (Some 320%float) None None None None) (Exit 1).
Proof. reflexivity. Qed.

(** X12: the argument of [time.Sleep] is the poll interval in seconds
    exactly when the interval lies between -9223372036 and 9223372036;
    outside this range the 64-bit product with [time.Second] wraps around. *)
Theorem pollDuration_exact_iff (flags : Flags) :
  pollDuration flags = pollInterval flags * Second <->
  -9223372036 <= pollInterval flags <= 9223372036.
Proof.
  unfold pollDuration, wrap64, Second.
  set (n := pollInterval flags).
  pose proof (Z.mod_pos_bound (n * 1000000000 + 2 ^ 63) (2 ^ 64)
                ltac:(lia)) as Hbound.
  split.
  - intros Heq. lia.
  - intros Hrange. rewrite Z.mod_small; lia.
Qed.

Example pollDuration_wraps :
  pollDuration (flag_Parse [ArgPollInterval 9223372037]) = -9223372036709551616.
Proof. reflexivity. Qed.

(** X13: when the login succeeded, a failed resolution is logged with its
    cause and ends the iteration.  If the vehicle list cannot be fetched the
    line is [cannot get vehicles:] followed by the text of the error,
    whatever the filter; if the list is fetched and no VIN matches a
    non-empty filter, the line is the [cannot find vehicle] message with the
    VIN of every listed vehicle. *)
Theorem resolution_failure_is_logged `{CaseFolding} (flags : Flags)
        (remote : Remote) (s : Sink) :
  Login remote = None ->
  (forall cause,
      Vehicles remote = Err cause ->
      pollOnce flags remote s =
      mkRun [CallNewIdentity;
             CallLogin (username flags) (token flags) "en" "hyundai";
             CallNewAPI; CallVehicles;
             LogPrint ("cannot get vehicles: " ++ Error cause);
             Sleep (pollDuration flags)] s (Done tt)) /\
  (forall vehicles,
      Vehicles remote = Ok vehicles ->
      vin flags <> "" ->
      (forall v, In v vehicles -> ToUpper (VIN v) <> ToUpper (vin flags)) ->
      pollOnce flags remote s =
      mkRun [CallNewIdentity;
             CallLogin (username flags) (token flags) "en" "hyundai";
             CallNewAPI; CallVehicles;
             LogPrint ("cannot find vehicle, got: [" ++
                       joinWith " " (map VIN vehicles) ++ "]");
             Sleep (pollDuration flags)] s (Done tt)).
Proof.
  intros E. split.
  - intros cause Hlist.
    apply (pollOnce_not_resolved flags remote s (err := ErrCannotGetVehicles cause) E).
    now rewrite Hlist.
  - intros vehicles Hlist Hne Hnone.
    apply (pollOnce_not_resolved flags remote s
             (err := ErrCannotFindVehicle (map VIN vehicles)) E).
    rewrite Hlist, ensureVehicleEx_filter by assumption.
    assert (Hscan : scanVehicles (ToUpper (vin flags)) extractVIN vehicles
                    = None).
    { apply scanVehicles_None. intros w Hw. exists (VIN w).
      split; [reflexivity | now apply Hnone]. }
    rewrite Hscan, (gotIdentifiers_all extractVIN VIN); reflexivity.
Qed.

Lemma resolution_failure_is_logged_witness :
  Login remoteHealthy = None /\
  Vehicles remoteHealthy = Ok [abc123; xyz789] /\
  vin flagDefaults <> "" /\
  (forall v, In v [abc123; xyz789] ->
             ToUpper (VIN v) <> ToUpper (vin flagDefaults)) /\
  pollOnce flagDefaults remoteHealthy emptySink
  = mkRun [CallNewIdentity;
           CallLogin "user@example.com" "secret1234" "en" "hyundai";
           CallNewAPI; CallVehicles;
           LogPrint "cannot find vehicle, got: [ABC123 XYZ789]";
           Sleep 60000000000] emptySink (Done tt).
Proof.
  assert (Hne : vin flagDefaults <> "") by discriminate.
  assert (Hnone : forall v, In v [abc123; xyz789] ->
                            ToUpper (VIN v) <> ToUpper (vin flagDefaults)).
  { intros v [<-|[<-|[]]]; discriminate. }
  split; [reflexivity|]. split; [reflexivity|]. split; [exact Hne|].
  split; [exact Hnone|].
  exact (proj2 (resolution_failure_is_logged (H := asciiFolding) flagDefaults
                  remoteHealthy emptySink eq_refl)
               [abc123; xyz789] eq_refl Hne Hnone).
Defined.
